(** * aiogram_dialog: the dialog orchestrator and the keyboard sublibrary

    A shallow embedding of [aiogram_dialog/dialog.py] (class [Dialog]) and
    of [new/dialog/kbd.py] (classes [Keyboard], [Button], [Uri], [Group]),
    with the properties of the specification stated over it.

    Python values are modelled as the code has them: a state identifier is
    an [Optional[str]], truthiness is written out, list indexing follows
    Python (negative indices wrap, out of range raises [IndexError]),
    exceptions are an explicit result type, and the asynchronous methods
    run in a state-and-exception monad over the chat's persisted store and
    a trace of the calls made to the collaborators of the dialog. *)

From stdpp Require Import gmap strings list.
From Stdlib Require Import ZArith Lia.

Set Default Proof Using "Type".

(** ** Python values *)

(** A state identifier, [Optional[str]]: [None] is the chat's default
    state and also what [next_step] returns for "no next state". *)
Definition state_id : Type := option string.

(** Python truthiness of an [Optional[str]]: [None] and the empty string
    are falsy. *)
Definition truthy (s : state_id) : bool :=
  match s with
  | None => false
  | Some EmptyString => false
  | Some (String _ _) => true
  end.

(** A value stored in the data bag. *)
Inductive pyval : Type :=
| PyNone
| PyBool (b : bool)
| PyInt (z : Z)
| PyStr (s : string).

(** The characters [repr] treats apart: the two quotes and the
    backslash. *)
Definition squote : Ascii.ascii := Ascii.ascii_of_nat 39.
Definition dquote : Ascii.ascii := Ascii.ascii_of_nat 34.
Definition backslash : Ascii.ascii := Ascii.ascii_of_nat 92.

Fixpoint contains (c : Ascii.ascii) (s : string) : bool :=
  match s with
  | EmptyString => false
  | String x s' => bool_decide (x = c) || contains c s'
  end.

Definition hex_digit (n : nat) : Ascii.ascii :=
  default (Ascii.ascii_of_nat 48) (String.get n "0123456789abcdef").

(** One character of [repr] of a [str]: the quote in use and the
    backslash are escaped, tab, newline and carriage return have their
    letter, the other control characters are written in hexadecimal. A
    character outside ASCII is copied, as Python copies a printable one. *)
Definition repr_char (quote c : Ascii.ascii) : string :=
  let n := Ascii.nat_of_ascii c in
  if bool_decide (c = quote) || bool_decide (c = backslash)
  then String backslash (String c EmptyString)
  else if n =? 9 then String backslash "t"
  else if n =? 10 then String backslash "n"
  else if n =? 13 then String backslash "r"
  else if (n <? 32) || (n =? 127)
  then String backslash
         ("x" +:+ String (hex_digit (n / 16))
                    (String (hex_digit (n mod 16)) EmptyString))
  else String c EmptyString.

Fixpoint repr_chars (quote : Ascii.ascii) (s : string) : string :=
  match s with
  | EmptyString => EmptyString
  | String c s' => repr_char quote c +:+ repr_chars quote s'
  end.

(** [repr] of a state identifier, as used in error messages: single
    quotes, or double quotes when the text holds a single quote and no
    double quote. *)
Definition repr (s : state_id) : string :=
  match s with
  | None => "None"
  | Some x =>
      let quote := if contains squote x && negb (contains dquote x)
                   then dquote else squote in
      String quote (repr_chars quote x) +:+ String quote EmptyString
  end.

(** [str] of a state identifier, as an f-string formats it. *)
Definition str (s : state_id) : string :=
  match s with
  | None => "None"
  | Some x => x
  end.

(** The exceptions that occur in the modelled code. *)
Inductive exn : Type :=
| ValueError (msg : string)
| IndexError
| KeyError (key : state_id)
| StateBrokenError (msg : string)
| MessageNotModified
| NetworkError (msg : string)
| NotImplementedError.

Inductive result (A : Type) : Type :=
| Ret (a : A)
| Raise (e : exn).
Arguments Ret {A} a.
Arguments Raise {A} e.

(** [list.index(x)]: the first position holding [x], [ValueError] when
    there is none. *)
Fixpoint index (l : list state_id) (x : state_id) : result nat :=
  match l with
  | [] => Raise (ValueError (repr x +:+ " is not in list"))
  | y :: l' =>
      if decide (y = x) then Ret 0
      else match index l' x with
           | Ret i => Ret (S i)
           | Raise e => Raise e
           end
  end.

(** [l[i]] for a Python integer [i]: a negative index counts from the
    end, anything outside [-len, len) raises [IndexError]. *)
Definition getitem {A : Type} (l : list A) (i : Z) : result A :=
  let n := Z.of_nat (length l) in
  let j := if (i <? 0)%Z then (i + n)%Z else i in
  if ((j <? 0) || (n <=? j))%Z then Raise IndexError
  else match l !! Z.to_nat j with
       | Some x => Ret x
       | None => Raise IndexError
       end.

(** ** Telegram objects *)

Record InlineKeyboardButton : Type := {
  btn_text : string;
  btn_callback_data : option string;
  btn_uri : option string
}.

(** The rows of an [InlineKeyboardMarkup]. *)
Definition Markup : Type := list (list InlineKeyboardButton).

Record Message : Type := {
  chat_id : Z;
  text : option string
}.

Record CallbackQuery : Type := {
  data : option string;
  message : Message
}.

(** An aiogram [State] object; the code reads its [state] property only. *)
Record State : Type := { state : state_id }.

(** ** The trace and the world *)

Inductive hook : Type :=
| OnStart | OnBack | OnNext | OnDone | OnCancel | OnFinish | OnResume.

(** A registered lifecycle callback, an opaque callable of the
    application, identified by a name. *)
Definition callback : Type := string.

(** The calls the orchestrator makes to its collaborators, in the order it
    makes them. *)
Inductive event : Type :=
| Hook (h : hook) (dialog_data : option (gmap string pyval))
| Callback (c : callback) (dialog_data : option (gmap string pyval))
| LogError (current_state : state_id)
| ProcessMessage (current_state : state_id) (m : Message)
| ProcessCallback (current_state : state_id) (c : CallbackQuery)
| RenderText (next_state : state_id) (bag : gmap string pyval) (error : option exn)
| RenderKbd (next_state : state_id) (bag : gmap string pyval)
| EditMessageText (chat message_id : Z) (new_text : string)
| EditMessageReplyMarkup (chat message_id : Z) (reply_markup : option Markup)
| Answer (chat : Z) (new_text : string) (reply_markup : Markup)
| AnswerCallback
| SetState (next_state : state_id)
| Reset (field : string)
| Commit (field : string).

(** What DialogData keeps in the persisted store under one dialog field. *)
Record DialogContent : Type := {
  c_message_id : option Z;
  c_old_state : option state_id;
  c_bag : gmap string pyval
}.

Definition empty_content : DialogContent :=
  {| c_message_id := None; c_old_state := None; c_bag := ∅ |}.

(** The persisted per-chat store of the FSM backend and the trace. *)
Record World : Type := {
  chat_state : state_id;
  store : gmap string DialogContent;
  trace : list event
}.

(** The environment: whether a call to the messaging client or to a
    registered callback raises, and which identifier a sent message
    gets, both as functions of everything that happened before. *)
Record Env : Type := {
  raises : list event -> event -> option exn;
  new_message_id : list event -> Z
}.

(** ** The monad of the asynchronous methods *)

Definition M (A : Type) : Type := World -> result A * World.

Definition ret {A : Type} (a : A) : M A := fun w => (Ret a, w).

Definition raise {A : Type} (e : exn) : M A := fun w => (Raise e, w).

Definition bind {A B : Type} (m : M A) (k : A -> M B) : M B :=
  fun w =>
    match m w with
    | (Ret a, w') => k a w'
    | (Raise e, w') => (Raise e, w')
    end.

Declare Scope M_scope.
Delimit Scope M_scope with M.
Bind Scope M_scope with M.
Notation "x <- m ;; k" := (bind m (fun x => k))
  (at level 100, m at next level, k at level 200, right associativity) : M_scope.
Notation "m ;; k" := (bind m (fun _ => k))
  (at level 100, k at level 200, right associativity) : M_scope.
Open Scope M_scope.

Definition lift {A : Type} (r : result A) : M A := fun w => (r, w).

(** Record a call that cannot fail. *)
Definition log (ev : event) : M unit :=
  fun w => (Ret tt, {| chat_state := chat_state w; store := store w;
                       trace := trace w ++ [ev] |}).

(** [try: m except MessageNotModified: pass] *)
Definition except_not_modified (m : M unit) : M unit :=
  fun w =>
    match m w with
    | (Raise MessageNotModified, w') => (Ret tt, w')
    | r => r
    end.

(** [for c in callbacks: await c(...)] *)
Fixpoint for_each {A : Type} (l : list A) (body : A -> M unit) : M unit :=
  match l with
  | [] => ret tt
  | a :: l' => body a ;; for_each l' body
  end.

(** ** Steps *)

(** Another [Dialog] instance a step may hand over to; only its [start]
    is ever invoked. *)
Record DialogRef : Type := { ref_start : Message -> M unit }.

(** The next-state directive a step returns: [NotImplemented], a [State]
    object, another [Dialog], or a plain [Optional[str]]. *)
Inductive directive : Type :=
| DNotImplemented
| DState (s : State)
| DDialog (d : DialogRef)
| DValue (s : state_id).

(** The [back] attribute of a step. *)
Inductive back_directive : Type :=
| BackNotImplemented
| BackTo (s : state_id).

(** The Step contract ([step.py] is not part of the sources; the
    orchestrator uses exactly these members). *)
Record Step : Type := {
  step_can_cancel : bool;
  step_can_back : bool;
  step_can_done : bool;
  step_can_skip : bool;
  step_field : string;
  step_back : back_directive;
  step_render_text : gmap string pyval -> option exn -> string;
  step_render_kbd : gmap string pyval -> option Markup;
  step_process_message : Message -> gmap string pyval -> result (pyval * directive);
  step_process_callback : CallbackQuery -> gmap string pyval -> result (pyval * directive)
}.

(** ** Dialog *)

(** The four captions ([texts.py] is not part of the sources). *)
Record DialogTexts : Type := {
  texts_back : string;
  texts_skip : string;
  texts_cancel : string;
  texts_done : string
}.

Definition default_texts : DialogTexts :=
  {| texts_back := "Back"; texts_skip := "Skip";
     texts_cancel := "Cancel"; texts_done := "Done" |}.

(** A Python [dict], insertion-ordered, keyed by state identifiers. *)
Fixpoint dict_set {V : Type} (k : state_id) (v : V) (d : list (state_id * V))
  : list (state_id * V) :=
  match d with
  | [] => [(k, v)]
  | (k', v') :: d' =>
      if decide (k' = k) then (k', v) :: d' else (k', v') :: dict_set k v d'
  end.

Fixpoint dict_get {V : Type} (k : state_id) (d : list (state_id * V)) : option V :=
  match d with
  | [] => None
  | (k', v') :: d' => if decide (k' = k) then Some v' else dict_get k d'
  end.

(** [d[k]], raising [KeyError]. *)
Definition dict_getitem {V : Type} (k : state_id) (d : list (state_id * V)) : result V :=
  match dict_get k d with
  | Some v => Ret v
  | None => Raise (KeyError k)
  end.

Record Dialog : Type := {
  steps : list (state_id * Step);
  states : list state_id;
  dialog_field : string;
  cancel_cd : string;
  done_cd : string;
  back_cd : string;
  skip_cd : string;
  _can_cancel : bool;
  _can_back : bool;
  _can_done : bool;
  _can_skip : bool;
  finished_callbacks : list callback;
  done_callbacks : list callback;
  cancel_callbacks : list callback;
  texts : DialogTexts
}.

(** A key of the [steps] argument of the constructor: a [State] object,
    or one of the falsy keys [None] and [''] that [s and s.state] lets
    through as they are. *)
Inductive steps_key : Type :=
| KNone
| KEmpty
| KState (s : State).

(** [s and s.state] *)
Definition key_state (s : steps_key) : state_id :=
  match s with
  | KNone => None
  | KEmpty => Some ""
  | KState st => state st
  end.

(** [{(s and s.state): step for s, step in steps.items()}] *)
Fixpoint init_steps (items : list (steps_key * Step)) (acc : list (state_id * Step))
  : list (state_id * Step) :=
  match items with
  | [] => acc
  | (s, step) :: items' => init_steps items' (dict_set (key_state s) step acc)
  end.

(** [Dialog.__init__] *)
Definition Dialog_init (steps0 : list (steps_key * Step))
    (can_cancel can_back can_done can_skip : bool)
    (internal_callback_prefix field : string) (texts0 : option DialogTexts) : Dialog :=
  let self_steps := init_steps steps0 [] in
  {| steps := self_steps;
     states := map fst self_steps;
     dialog_field := field;
     cancel_cd := internal_callback_prefix +:+ "[cancel]";
     done_cd := internal_callback_prefix +:+ "[done]";
     back_cd := internal_callback_prefix +:+ "[back]";
     skip_cd := internal_callback_prefix +:+ "[skip]";
     _can_cancel := can_cancel;
     _can_back := can_back;
     _can_done := can_done;
     _can_skip := can_skip;
     finished_callbacks := [];
     done_callbacks := [];
     cancel_callbacks := [];
     texts := match texts0 with Some t => t | None => default_texts end |}.

Definition can_cancel (d : Dialog) (step : option Step) : bool :=
  match step with
  | None => _can_cancel d
  | Some s => _can_cancel d && step_can_cancel s
  end.

Definition can_back (d : Dialog) (st : state_id) (step : option Step) : result bool :=
  match step with
  | None => Ret false
  | Some s =>
      match index (states d) st with
      | Raise e => Raise e
      | Ret i => if (Z.of_nat i <? 1)%Z then Ret false
                 else Ret (_can_back d && step_can_back s)
      end
  end.

Definition can_done (d : Dialog) (step : option Step) : bool :=
  match step with
  | None => _can_done d
  | Some s => _can_done d && step_can_done s
  end.

Definition can_skip (d : Dialog) (step : option Step) : bool :=
  match step with
  | None => _can_skip d
  | Some s => _can_skip d && step_can_skip s
  end.

Definition next_step (d : Dialog) (current_state : state_id) : result state_id :=
  if negb (truthy current_state) then getitem (states d) 0
  else match index (states d) current_state with
       | Raise e => Raise e
       | Ret i =>
           match getitem (states d) (Z.of_nat i + 1) with
           | Raise IndexError => Ret None
           | r => r
           end
       end.

(** ** The keyboard sublibrary ([new/dialog/kbd.py]) *)

(** Modelled from the spec: a [Text] renderer, of which only
    [render_text(data)] is used, is a function of the session data
    ([text.py] is not part of the sources). *)
Definition Text : Type := gmap string pyval -> string.

(** Modelled from the spec: the visibility gate of a [Whenable], of which
    only [is_(data)] is used, is a predicate on the session data
    ([when.py] is not part of the sources). *)
Definition When : Type := gmap string pyval -> bool.

(** The nodes of a keyboard tree: the classes of [kbd.py]. [BaseKeyboard]
    is an instance of the class [Keyboard] itself, which can be made and
    whose [_render_kbd] is not implemented. *)
#[warnings="-register-all"]
Inductive Keyboard : Type :=
| BaseKeyboard (when : When)
| Button (text callback_data : Text) (on_click : option callback) (when : When)
| Uri (text uri : Text) (when : When)
| Group (buttons : list Keyboard) (keep_rows : bool) (width : Z) (when : When).

Definition is_ (k : Keyboard) (data : gmap string pyval) : bool :=
  match k with
  | BaseKeyboard when => when data
  | Button _ _ _ when => when data
  | Uri _ _ when => when data
  | Group _ _ _ when => when data
  end.

(** The loop of [Group._wrap_kbd], with its two accumulators. *)
Fixpoint wrap_loop (width : Z) (kbd : list InlineKeyboardButton)
    (res : Markup) (row : list InlineKeyboardButton) : Markup :=
  match kbd with
  | [] => match row with [] => res | _ :: _ => res ++ [row] end
  | b :: kbd' =>
      let row' := row ++ [b] in
      if (width <=? Z.of_nat (length row'))%Z
      then wrap_loop width kbd' (res ++ [row']) []
      else wrap_loop width kbd' res row'
  end.

Definition _wrap_kbd (width : Z) (kbd : list InlineKeyboardButton) : Markup :=
  wrap_loop width kbd [] [].

(** One turn of the loop of [Group._render_kbd]: [kbd += b_kbd] or
    [kbd[0].extend(chain.from_iterable(b_kbd))]. *)
Definition group_add (keep_rows : bool) (kbd b_kbd : Markup) : Markup :=
  match kbd with
  | [] => kbd ++ b_kbd
  | row :: rest =>
      if keep_rows then kbd ++ b_kbd else (row ++ concat b_kbd) :: rest
  end.

(** The loop of [Group._render_kbd] over the children, given how a child
    renders. *)
Definition group_loop (render : Keyboard -> result Markup) (keep_rows : bool)
  : list Keyboard -> Markup -> result Markup :=
  fix loop (buttons : list Keyboard) (kbd : Markup) : result Markup :=
    match buttons with
    | [] => Ret kbd
    | b :: buttons' =>
        match render b with
        | Raise e => Raise e
        | Ret b_kbd => loop buttons' (group_add keep_rows kbd b_kbd)
        end
    end.

(** What [Group._render_kbd] does after the loop. *)
Definition group_finish (keep_rows : bool) (width : Z) (kbd : Markup) : result Markup :=
  if negb keep_rows && negb (width =? 0)%Z
  then match getitem kbd 0 with
       | Raise e => Raise e
       | Ret row => Ret (_wrap_kbd width row)
       end
  else Ret kbd.

(** [Keyboard.render_kbd], with the [_render_kbd] of each class inlined. *)
Fixpoint render_kbd (k : Keyboard) (data : gmap string pyval) : result Markup :=
  if negb (is_ k data) then Ret []
  else
    match k with
    | BaseKeyboard _ => Raise NotImplementedError
    | Button text callback_data _ _ =>
        Ret [[ {| btn_text := text data;
                  btn_callback_data := Some (callback_data data);
                  btn_uri := None |} ]]
    | Uri text uri _ =>
        Ret [[ {| btn_text := text data;
                  btn_callback_data := None;
                  btn_uri := Some (uri data) |} ]]
    | Group buttons keep_rows width _ =>
        match group_loop (fun b => render_kbd b data) keep_rows buttons [] with
        | Raise e => Raise e
        | Ret kbd => group_finish keep_rows width kbd
        end
    end.

(** [_render_kbd] of each class, over [render_kbd] of the children. *)
Definition _render_kbd (k : Keyboard) (data : gmap string pyval) : result Markup :=
  match k with
  | BaseKeyboard _ => Raise NotImplementedError
  | Button text callback_data _ _ =>
      Ret [[ {| btn_text := text data;
                btn_callback_data := Some (callback_data data);
                btn_uri := None |} ]]
  | Uri text uri _ =>
      Ret [[ {| btn_text := text data;
                btn_callback_data := None;
                btn_uri := Some (uri data) |} ]]
  | Group buttons keep_rows width _ =>
      match group_loop (fun b => render_kbd b data) keep_rows buttons [] with
      | Raise e => Raise e
      | Ret kbd => group_finish keep_rows width kbd
      end
  end.

(** ** DialogData *)

(** Modelled from the spec: the DialogData accessor ([data.py] is not part
    of the sources). One object lives for one handled event; it holds the
    dialog field it is namespaced by and the buffered content (active
    message identifier, previous-state marker, field bag). Reads go
    through to the store and are cached; nothing else writes the content
    during the event, so the buffer is filled when the object is made. *)
Record DialogData : Type := {
  dd_field : string;
  dd_content : DialogContent
}.

(** Modelled from the spec: [DialogData(field, state)], read-through to
    the persisted store; a field never written holds no message and an
    empty bag. *)
Definition DialogData_init (field : string) : M DialogData :=
  fun w => (Ret {| dd_field := field;
                   dd_content := default empty_content (store w !! field) |}, w).

(** Modelled from the spec: [data()] materializes the field bag. *)
Definition dd_data (dd : DialogData) : gmap string pyval := c_bag (dd_content dd).

(** Modelled from the spec: [message_id()], the active outbound message
    or absent. *)
Definition dd_message_id (dd : DialogData) : option Z := c_message_id (dd_content dd).

(** Modelled from the spec: [set_message_id(id)] records a new active
    message in the buffer. *)
Definition dd_set_message_id (id : Z) (dd : DialogData) : DialogData :=
  {| dd_field := dd_field dd;
     dd_content := {| c_message_id := Some id;
                      c_old_state := c_old_state (dd_content dd);
                      c_bag := c_bag (dd_content dd) |} |}.

(** Modelled from the spec: item assignment by field name on the buffered
    bag. *)
Definition dd_setitem (key : string) (value : pyval) (dd : DialogData) : DialogData :=
  {| dd_field := dd_field dd;
     dd_content := {| c_message_id := c_message_id (dd_content dd);
                      c_old_state := c_old_state (dd_content dd);
                      c_bag := <[key := value]> (c_bag (dd_content dd)) |} |}.

(** Modelled from the spec: item deletion by field name on the buffered
    bag. *)
Definition dd_delitem (key : string) (dd : DialogData) : DialogData :=
  {| dd_field := dd_field dd;
     dd_content := {| c_message_id := c_message_id (dd_content dd);
                      c_old_state := c_old_state (dd_content dd);
                      c_bag := delete key (c_bag (dd_content dd)) |} |}.

(** Modelled from the spec: [reset()] clears the message id and the bag
    and leaves the chat's state slot alone. *)
Definition dd_reset (dd : DialogData) : M DialogData :=
  log (Reset (dd_field dd));;
  ret {| dd_field := dd_field dd;
         dd_content := {| c_message_id := None;
                          c_old_state := c_old_state (dd_content dd);
                          c_bag := ∅ |} |}.

(** Modelled from the spec: [commit()] flushes the buffer to the store. *)
Definition dd_commit (dd : DialogData) : M unit :=
  fun w => (Ret tt, {| chat_state := chat_state w;
                       store := <[dd_field dd := dd_content dd]> (store w);
                       trace := trace w ++ [Commit (dd_field dd)] |}).

(** [FSMContext.get_state()] *)
Definition get_state : M state_id := fun w => (Ret (chat_state w), w).

(** [FSMContext.set_state(state)] *)
Definition set_state (next_state : state_id) : M unit :=
  fun w => (Ret tt, {| chat_state := next_state; store := store w;
                       trace := trace w ++ [SetState next_state] |}).

(** Truthiness of an [Optional[int]]; where it is truthy the integer is
    read with [default 0]. *)
Definition truthy_id (id : option Z) : bool :=
  match id with
  | None => false
  | Some z => negb (z =? 0)%Z
  end.

(** ** The asynchronous methods of Dialog *)

Section Orchestrator.

Variable env : Env.

(** A call to the messaging client or to a registered callback: it is
    recorded, and the environment decides whether it raises. *)
Definition emit (ev : event) : M unit :=
  fun w =>
    let w' := {| chat_state := chat_state w; store := store w;
                 trace := trace w ++ [ev] |} in
    match raises env (trace w) ev with
    | Some e => (Raise e, w')
    | None => (Ret tt, w')
    end.

(** [message.answer(text, reply_markup)], returning the new message's id. *)
Definition answer (m : Message) (new_text : string) (kbd : Markup) : M Z :=
  fun w =>
    match emit (Answer (chat_id m) new_text kbd) w with
    | (Ret _, w') => (Ret (new_message_id env (trace w)), w')
    | (Raise e, w') => (Raise e, w')
    end.

(** [bot.edit_message_reply_markup(...)] inside
    [try: ... except MessageNotModified: pass], when [oldmsg_id] is truthy. *)
Definition clear_markup (m : Message) (oldmsg_id : option Z) : M unit :=
  if truthy_id oldmsg_id
  then except_not_modified
         (emit (EditMessageReplyMarkup (chat_id m) (default 0%Z oldmsg_id) None))
  else ret tt.

(** The hooks [on_done], [on_cancel], [on_finish], [on_back] and [on_next]
    are empty in [Dialog]; that they are called, and with which bag, is
    recorded in the trace. *)

Definition _do_finish (m : Message) (dd : DialogData) : M DialogData :=
  let oldmsg_id := dd_message_id dd in
  clear_markup m oldmsg_id;;
  dd_reset dd.

Definition _notify_finish (d : Dialog) (m : Message) : M unit :=
  log (Hook OnFinish None);;
  for_each (finished_callbacks d) (fun c => emit (Callback c None)).

Definition done (d : Dialog) (m : Message) (dd : DialogData) : M DialogData :=
  let data := dd_data dd in
  dd' <- _do_finish m dd;;
  log (Hook OnDone (Some data));;
  for_each (done_callbacks d) (fun c => emit (Callback c (Some data)));;
  _notify_finish d m;;
  ret dd'.

Definition cancel (d : Dialog) (m : Message) (dd : DialogData) : M DialogData :=
  dd' <- _do_finish m dd;;
  log (Hook OnCancel None);;
  for_each (cancel_callbacks d) (fun c => emit (Callback c None));;
  _notify_finish d m;;
  ret dd'.

Definition nav_button (caption cd : string) : InlineKeyboardButton :=
  {| btn_text := caption; btn_callback_data := Some cd; btn_uri := None |}.

(** [kbd.row] with the buttons of [row], when [row] is not empty. *)
Definition add_row (kbd : Markup) (row : list InlineKeyboardButton) : Markup :=
  match row with
  | [] => kbd
  | _ :: _ => kbd ++ [row]
  end.

Definition get_kbd (d : Dialog) (current_state : state_id) (current_step : Step)
    (current_data : gmap string pyval) : M Markup :=
  log (RenderKbd current_state current_data);;
  let kbd := default [] (step_render_kbd current_step current_data) in
  back_ok <- lift (can_back d current_state (Some current_step));;
  let steps_row :=
    (if back_ok then [nav_button (texts_back (texts d)) (back_cd d)] else []) ++
    (if can_skip d (Some current_step)
     then [nav_button (texts_skip (texts d)) (skip_cd d)] else []) in
  let kbd := add_row kbd steps_row in
  let finish_row :=
    (if can_cancel d (Some current_step)
     then [nav_button (texts_cancel (texts d)) (cancel_cd d)] else []) ++
    (if can_done d (Some current_step)
     then [nav_button (texts_done (texts d)) (done_cd d)] else []) in
  ret (add_row kbd finish_row).

(** The [if edit and oldmsg_id: ... else: ...] of [switch_step]: edit the
    displayed message in place, or clear its buttons and send a new one. *)
Definition edit_or_send (d : Dialog) (m : Message) (dd : DialogData)
    (new_text : string) (next_state : state_id) (next_step : Step)
    (edit : bool) : M DialogData :=
  let oldmsg_id := dd_message_id dd in
  let data := dd_data dd in
  if edit && truthy_id oldmsg_id then
    (if bool_decide (text m = Some new_text) then ret tt
     else emit (EditMessageText (chat_id m) (default 0%Z oldmsg_id) new_text));;
    except_not_modified
      (kbd <- get_kbd d next_state next_step data;;
       emit (EditMessageReplyMarkup (chat_id m) (default 0%Z oldmsg_id) (Some kbd)));;
    ret dd
  else
    clear_markup m oldmsg_id;;
    kbd <- get_kbd d next_state next_step data;;
    newmsg_id <- answer m new_text kbd;;
    ret (dd_set_message_id newmsg_id dd).

Definition switch_step (d : Dialog) (m : Message) (dd : DialogData)
    (error : option exn) (next_state : state_id) (next_step : Step)
    (edit : bool) : M DialogData :=
  let data := dd_data dd in
  log (RenderText next_state data error);;
  let new_text := step_render_text next_step data error in
  dd' <- edit_or_send d m dd new_text next_state next_step edit;;
  set_state next_state;;
  ret dd'.

Definition start_dialog (m : Message) (dialog : DialogRef) : M unit :=
  ref_start dialog m.

Definition switch_dialog (m : Message) (dd : DialogData) (dialog : DialogRef) : M unit :=
  clear_markup m (dd_message_id dd);;
  start_dialog m dialog.

(** The first three tests of [next]: a [State] object is replaced by its
    [state], [NotImplemented] by [next_step(current_state)], and another
    [Dialog] is told apart from a state identifier. *)
Definition resolve (d : Dialog) (current_state : state_id) (next_state : directive)
  : result (DialogRef + state_id) :=
  match next_state with
  | DState s => Ret (inr (state s))
  | DNotImplemented =>
      match next_step d current_state with
      | Ret s => Ret (inr s)
      | Raise e => Raise e
      end
  | DDialog dialog => Ret (inl dialog)
  | DValue s => Ret (inr s)
  end.

Definition next (d : Dialog) (current_state : state_id) (m : Message)
    (dd : DialogData) (edit : bool) (error : option exn)
    (next_state : directive) : M DialogData :=
  log (Hook OnNext None);;
  resolved <- lift (resolve d current_state next_state);;
  match resolved with
  | inl dialog => switch_dialog m dd dialog;; ret dd
  | inr next_state =>
      if negb (truthy next_state) then done d m dd
      else
        next_step <- lift (dict_getitem next_state (steps d));;
        switch_step d m dd error next_state next_step edit
  end.

Definition back (d : Dialog) (c : CallbackQuery) (dd : DialogData) : M unit :=
  current_state <- get_state;;
  current_step <- lift (dict_getitem current_state (steps d));;
  log (Hook OnBack None);;
  let dd := dd_delitem (step_field current_step) dd in
  prev_state <- match step_back current_step with
                | BackTo s => ret s
                | BackNotImplemented =>
                    i <- lift (index (states d) current_state);;
                    lift (getitem (states d) (Z.of_nat i - 1))
                end;;
  prev_step <- lift (dict_getitem prev_state (steps d));;
  dd <- switch_step d (message c) dd None prev_state prev_step true;;
  dd_commit dd.

(** [next_state == current_state] for a directive and a state
    identifier. *)
Definition same_state (next_state : directive) (current_state : state_id) : bool :=
  match next_state with
  | DValue s => bool_decide (s = current_state)
  | _ => false
  end.

Definition state_broken (current_state : state_id) : M unit :=
  log (LogError current_state);;
  raise (StateBrokenError ("No step found for state " +:+ str current_state)).

Definition handle_message (d : Dialog) (m : Message) : M unit :=
  dd <- DialogData_init (dialog_field d);;
  current_state <- get_state;;
  match dict_get current_state (steps d) with
  | None => state_broken current_state
  | Some step =>
      let data := dd_data dd in
      log (ProcessMessage current_state m);;
      r <- match step_process_message step m data with
           | Ret (value, next_state) =>
               ret (dd_setitem (step_field step) value dd, None, next_state)
           | Raise (ValueError msg) =>
               ret (dd, Some (ValueError msg), DValue current_state)
           | Raise e => raise e
           end;;
      let '(dd, error, next_state) := r in
      let edit := same_state next_state current_state in
      dd <- next d current_state m dd edit error next_state;;
      dd_commit dd
  end.

Definition handle_callback (d : Dialog) (c : CallbackQuery) : M unit :=
  dd <- DialogData_init (dialog_field d);;
  current_state <- get_state;;
  if bool_decide (data c = Some (done_cd d)) then
    done d (message c) dd;;
    emit AnswerCallback
  else if bool_decide (data c = Some (back_cd d)) then
    back d c dd;;
    emit AnswerCallback
  else if bool_decide (data c = Some (skip_cd d)) then
    next d current_state (message c) dd true None DNotImplemented;;
    emit AnswerCallback
  else if bool_decide (data c = Some (cancel_cd d)) then
    cancel d (message c) dd;;
    emit AnswerCallback
  else
    match dict_get current_state (steps d) with
    | None => state_broken current_state
    | Some step =>
        let data := dd_data dd in
        log (ProcessCallback current_state c);;
        r <- match step_process_callback step c data with
             | Ret (value, next_state) =>
                 ret (dd_setitem (step_field step) value dd, None, next_state)
             | Raise (ValueError msg) =>
                 ret (dd, Some (ValueError msg), DValue current_state)
             | Raise e => raise e
             end;;
        let '(dd, error, next_state) := r in
        dd <- next d current_state (message c) dd true error next_state;;
        emit AnswerCallback;;
        dd_commit dd
    end.

End Orchestrator.

(** Registration of lifecycle callbacks appends to the dialog's lists. *)
Definition add_done_callback (c : callback) (d : Dialog) : Dialog :=
  {| steps := steps d; states := states d; dialog_field := dialog_field d;
     cancel_cd := cancel_cd d; done_cd := done_cd d; back_cd := back_cd d;
     skip_cd := skip_cd d; _can_cancel := _can_cancel d; _can_back := _can_back d;
     _can_done := _can_done d; _can_skip := _can_skip d;
     finished_callbacks := finished_callbacks d;
     done_callbacks := done_callbacks d ++ [c];
     cancel_callbacks := cancel_callbacks d;
     texts := texts d |}.

Definition add_finished_callback (c : callback) (d : Dialog) : Dialog :=
  {| steps := steps d; states := states d; dialog_field := dialog_field d;
     cancel_cd := cancel_cd d; done_cd := done_cd d; back_cd := back_cd d;
     skip_cd := skip_cd d; _can_cancel := _can_cancel d; _can_back := _can_back d;
     _can_done := _can_done d; _can_skip := _can_skip d;
     finished_callbacks := finished_callbacks d ++ [c];
     done_callbacks := done_callbacks d;
     cancel_callbacks := cancel_callbacks d;
     texts := texts d |}.

Definition add_cancel_callback (c : callback) (d : Dialog) : Dialog :=
  {| steps := steps d; states := states d; dialog_field := dialog_field d;
     cancel_cd := cancel_cd d; done_cd := done_cd d; back_cd := back_cd d;
     skip_cd := skip_cd d; _can_cancel := _can_cancel d; _can_back := _can_back d;
     _can_done := _can_done d; _can_skip := _can_skip d;
     finished_callbacks := finished_callbacks d;
     done_callbacks := done_callbacks d;
     cancel_callbacks := cancel_callbacks d ++ [c];
     texts := texts d |}.

(** ** [start], [resume] and [SimpleDialog] *)

(** The [next_state] argument of [start], [NotImplemented] by default. *)
Inductive start_directive : Type :=
| StartNotImplemented
| StartAt (s : state_id).

(** Modelled from the spec: [update(dialog_data)] seeds the buffered bag
    with the caller's initial data, if any ([data.py] is not part of the
    sources). *)
Definition dd_update (initial : option (gmap string pyval)) (dd : DialogData)
  : DialogData :=
  {| dd_field := dd_field dd;
     dd_content := {| c_message_id := c_message_id (dd_content dd);
                      c_old_state := c_old_state (dd_content dd);
                      c_bag := default ∅ initial ∪ c_bag (dd_content dd) |} |}.

(** Modelled from the spec: [set_old_state()] stamps the chat's state at
    the start of the dialog. *)
Definition dd_set_old_state (dd : DialogData) : M DialogData :=
  fun w => (Ret {| dd_field := dd_field dd;
                   dd_content := {| c_message_id := c_message_id (dd_content dd);
                                    c_old_state := Some (chat_state w);
                                    c_bag := c_bag (dd_content dd) |} |}, w).

Definition start (env : Env) (d : Dialog) (m : Message)
    (dialog_data : option (gmap string pyval)) (next_state : start_directive)
  : M unit :=
  real_dialog_data <- DialogData_init (dialog_field d);;
  let real_dialog_data := dd_update dialog_data real_dialog_data in
  real_dialog_data <- dd_set_old_state real_dialog_data;;
  log (Hook OnStart None);;
  next_state <- match next_state with
                | StartNotImplemented => lift (next_step d None)
                | StartAt s => ret s
                end;;
  step <- lift (dict_getitem next_state (steps d));;
  real_dialog_data <- switch_step env d m real_dialog_data None next_state step false;;
  dd_commit real_dialog_data.

(** [resume]; a registered step is never falsy, so the diagnostic print
    is not reached. *)
Definition resume (env : Env) (d : Dialog) (m : Message) : M bool :=
  dd <- DialogData_init (dialog_field d);;
  let data := dd_data dd in
  next_state <- get_state;;
  match dict_get next_state (steps d) with
  | None => ret false
  | Some next_step =>
      log (Hook OnResume None);;
      log (RenderText next_state data None);;
      let new_text := step_render_text next_step data None in
      kbd <- get_kbd d next_state next_step data;;
      newmsg_id <- answer env m new_text kbd;;
      dd_commit (dd_set_message_id newmsg_id dd);;
      ret true
  end.

(** [SimpleDialog.__init__] *)
Definition SimpleDialog_init (st : steps_key) (step : Step) (can_cancel : bool)
    (internal_callback_prefix field : string) : Dialog :=
  Dialog_init [(st, step)] can_cancel false false false
    internal_callback_prefix field None.

(** ** Auxiliary definitions for the statements *)

(** A step that accepts any text but ["bad"] and stores it. *)
Definition sample_step (field : string) (back : back_directive) : Step :=
  {| step_can_cancel := true; step_can_back := true;
     step_can_done := true; step_can_skip := true;
     step_field := field; step_back := back;
     step_render_text := fun _ error =>
       match error with
       | Some (ValueError msg) => "Enter " +:+ field +:+ " (" +:+ msg +:+ ")"
       | _ => "Enter " +:+ field
       end;
     step_render_kbd := fun _ => None;
     step_process_message := fun m _ =>
       match text m with
       | Some "bad" => Raise (ValueError "not a number")
       | Some t => Ret (PyStr t, DNotImplemented)
       | None => Raise (ValueError "no text")
       end;
     step_process_callback := fun c _ =>
       match data c with
       | Some t => Ret (PyStr t, DNotImplemented)
       | None => Raise (ValueError "no data")
       end |}.

(** [Dialog({A: ..., B: ...})] with two named states. *)
Definition dialog_ab : Dialog :=
  Dialog_init [(KState {| state := Some "a" |}, sample_step "fa" BackNotImplemented);
               (KState {| state := Some "b" |}, sample_step "fb" BackNotImplemented)]
    true true false false "" "dlg" None.

(** A dialog whose first key is the empty string. *)
Definition dialog_empty_first : Dialog :=
  Dialog_init [(KEmpty, sample_step "f0" BackNotImplemented);
               (KState {| state := Some "b" |}, sample_step "fb" BackNotImplemented)]
    true true false false "" "dlg" None.

(** [Dialog({None: ...})]: a step for the chat's default state. *)
Definition dialog_none : Dialog :=
  Dialog_init [(KNone, sample_step "f0" BackNotImplemented)]
    true true false false "" "dlg" None.

(** What the constructor establishes and the registration of callbacks
    keeps: [states] lists the keys of [steps] in order, without
    repetition, and the four navigation identifiers share one prefix. *)
Record wf_dialog (d : Dialog) : Prop := {
  wf_states : states d = map fst (steps d);
  wf_NoDup : NoDup (states d);
  wf_cds : exists prefix : string,
      cancel_cd d = prefix +:+ "[cancel]" /\ done_cd d = prefix +:+ "[done]" /\
      back_cd d = prefix +:+ "[back]" /\ skip_cd d = prefix +:+ "[skip]"
}.

(** The positional reading of [next_step], for every state of the list
    whatever its truth value. *)
Definition next_step_claim (d : Dialog) : Prop :=
  (forall s0, states d !! 0 = Some s0 -> next_step d None = Ret s0) /\
  (forall (K : nat) s s', states d !! K = Some s -> states d !! (K + 1) = Some s' ->
     next_step d s = Ret s') /\
  (forall (K : nat) s, states d !! K = Some s -> K + 1 = length (states d) ->
     next_step d s = Ret None).

(** The reading of [can_back] as a total function. *)
Definition can_back_claim (d : Dialog) (st : state_id) (step : option Step) : Prop :=
  match step with
  | None => can_back d st step = Ret false
  | Some s =>
      if bool_decide (head (states d) = Some st)
      then can_back d st step = Ret false
      else can_back d st step = Ret (_can_back d && step_can_back s)
  end.

(** Rows of exactly [w] buttons, only the final row possibly shorter. *)
Inductive wrapped (w : nat) : Markup -> Prop :=
| wrapped_nil : wrapped w []
| wrapped_last row : 0 < length row <= w -> wrapped w [row]
| wrapped_cons row rest : length row = w -> wrapped w rest -> wrapped w (row :: rest).

(** A node that renders one button: a [Button] or a [Uri]. *)
Definition is_leaf (k : Keyboard) : bool :=
  match k with
  | Button _ _ _ _ | Uri _ _ _ => true
  | _ => false
  end.

Definition always : When := fun _ => true.
Definition never : When := fun _ => false.
Definition label (s : string) : Text := fun _ => s.

Definition sample_button (name : string) (when : When) : Keyboard :=
  Button (label name) (label ("cb_" +:+ name)) None when.

Definition rendered (name : string) : InlineKeyboardButton :=
  {| btn_text := name; btn_callback_data := Some ("cb_" +:+ name); btn_uri := None |}.

(** The bag committed to the store under the dialog's field. *)
Definition stored_bag (d : Dialog) (w : World) : gmap string pyval :=
  c_bag (default empty_content (store w !! dialog_field d)).

(** The message identifier committed to the store under the dialog's
    field. *)
Definition stored_message_id (d : Dialog) (w : World) : option Z :=
  c_message_id (default empty_content (store w !! dialog_field d)).

(** An environment in which no call raises. *)
Definition quiet (env : Env) : Prop := forall tr ev, raises env tr ev = None.

Definition quiet_env : Env :=
  {| raises := fun _ _ => None; new_message_id := fun tr => Z.of_nat (length tr) |}.

(** A new message is sent. *)
Definition is_send (ev : event) : bool :=
  match ev with
  | Answer _ _ _ => true
  | _ => false
  end.

(** [m] leaves the chat's state and the store alone and extends the trace
    by events that satisfy [P]. *)
Definition emits (P : event -> Prop) {A : Type} (m : M A) : Prop :=
  forall w r w', m w = (r, w') ->
    chat_state w' = chat_state w /\ store w' = store w /\
    exists tr, trace w' = trace w ++ tr /\ Forall P tr.

(** Whenever [m] returns, what it returns satisfies [Q]. *)
Definition returns {A : Type} (Q : A -> Prop) (m : M A) : Prop :=
  forall w a w', m w = (Ret a, w') -> Q a.

(** [m] does not raise. *)
Definition succeeds {A : Type} (m : M A) : Prop :=
  forall w, exists a w', m w = (Ret a, w').

(** C1 as stated: a validation failure of the step registered for the
    chat's state keeps that state, re-renders the step's text with the
    error, and leaves the stored entry of the step's field as it was. *)
Definition validation_failure_claim (env : Env) (d : Dialog) (m : Message)
    (w : World) : Prop :=
  forall step msg,
    dict_get (chat_state w) (steps d) = Some step ->
    step_process_message step m (stored_bag d w) = Raise (ValueError msg) ->
    forall r w', handle_message env d m w = (r, w') ->
      chat_state w' = chat_state w /\
      (exists tr, trace w' = trace w ++ tr /\
         RenderText (chat_state w) (stored_bag d w) (Some (ValueError msg)) ∈ tr) /\
      stored_bag d w' !! step_field step = stored_bag d w !! step_field step.

Definition message_bad : Message := {| chat_id := 5; text := Some "bad" |}.

(** A chat in the default state with a committed value for the step's
    field and a displayed message. *)
Definition world_none : World :=
  {| chat_state := None;
     store := {[ "dlg" := {| c_message_id := Some 7%Z; c_old_state := None;
                             c_bag := {[ "f0" := PyStr "old" ]} |} ]};
     trace := [] |}.

(** A chat in state [a] of [dialog_ab], likewise. *)
Definition world_a : World :=
  {| chat_state := Some "a";
     store := {[ "dlg" := {| c_message_id := Some 7%Z; c_old_state := None;
                             c_bag := {[ "fa" := PyStr "old" ]} |} ]};
     trace := [] |}.

Definition world_empty : World :=
  {| chat_state := Some "";
     store := {[ "dlg" := {| c_message_id := Some 7%Z; c_old_state := None;
                             c_bag := {[ "f0" := PyStr "old" ]} |} ]};
     trace := [] |}.

(** The world after one more event. *)
Definition logged (ev : event) (w : World) : World :=
  {| chat_state := chat_state w; store := store w; trace := trace w ++ [ev] |}.

(** What the handlers do when no step is found: the error is logged and
    [StateBrokenError] is raised with the offending state in its message. *)
Definition state_broken_outcome (w : World) : result unit * World :=
  (Raise (StateBrokenError ("No step found for state " +:+ str (chat_state w))),
   logged (LogError (chat_state w)) w).

(** The callback data is none of the four navigation identifiers. *)
Definition not_navigation (d : Dialog) (c : CallbackQuery) : Prop :=
  data c <> Some (done_cd d) /\ data c <> Some (back_cd d) /\
  data c <> Some (skip_cd d) /\ data c <> Some (cancel_cd d).

(** A chat whose recorded state is not a state of [dialog_ab]. *)
Definition world_zzz : World :=
  {| chat_state := Some "zzz";
     store := {[ "dlg" := {| c_message_id := Some 7%Z; c_old_state := None;
                             c_bag := {[ "fa" := PyStr "old" ]} |} ]};
     trace := [] |}.

(** [dialog_ab] with two done-callbacks and a finished-callback. *)
Definition dialog_callbacks : Dialog :=
  add_finished_callback "stats"
    (add_done_callback "mail" (add_done_callback "save" dialog_ab)).

(** The DialogData of a chat with a displayed message and a value for
    the first field. *)
Definition dialog_data_a : DialogData :=
  {| dd_field := "dlg";
     dd_content := {| c_message_id := Some 7%Z; c_old_state := None;
                      c_bag := {[ "fa" := PyStr "old" ]} |} |}.

Definition callback_back : CallbackQuery :=
  {| data := Some "[back]"; message := {| chat_id := 5; text := Some "Enter fb" |} |}.

Definition callback_other : CallbackQuery :=
  {| data := Some "pick"; message := {| chat_id := 5; text := Some "Enter fb" |} |}.


(** A chat in state [b] of [dialog_ab] with a displayed message and a
    value for each field. *)
Definition world_b : World :=
  {| chat_state := Some "b";
     store := {[ "dlg" := {| c_message_id := Some 7%Z; c_old_state := None;
                             c_bag := {[ "fa" := PyStr "1"; "fb" := PyStr "2" ]} |} ]};
     trace := [] |}.



(** The keys of the constructor's argument, as [s and s.state] maps them. *)
Definition item_keys (items : list (steps_key * Step)) : list state_id :=
  map (fun i => key_state i.1) items.

(** The first occurrence of every element, in order. *)
Definition first_occurrences (l : list state_id) : list state_id :=
  reverse (remove_dups (reverse l)).

(** A button of the row lists [rows] carries the callback data [cd]. *)
Definition offers (rows : Markup) (cd : string) : Prop :=
  exists b, b ∈ concat rows /\ btn_callback_data b = Some cd.

(** Two [State] objects with the same [state]: the second step replaces
    the first and keeps its place. *)
Definition dialog_replaced : Dialog :=
  Dialog_init [(KState {| state := Some "a" |}, sample_step "old" BackNotImplemented);
               (KState {| state := Some "b" |}, sample_step "fb" BackNotImplemented);
               (KState {| state := Some "a" |}, sample_step "new" BackNotImplemented)]
    true true false false "" "dlg" None.

(** DialogData after [reset()]. *)
Definition reset_data (dd : DialogData) : DialogData :=
  {| dd_field := dd_field dd;
     dd_content := {| c_message_id := None;
                      c_old_state := c_old_state (dd_content dd);
                      c_bag := ∅ |} |}.

(** [m] always raises. *)
Definition fails {A : Type} (m : M A) : Prop :=
  forall w, exists e w', m w = (Raise e, w').

(** The event belongs to the finish notification: the on-finish hook or
    a callback called without a bag. *)
Definition is_finish_notice (ev : event) : bool :=
  match ev with
  | Hook OnFinish _ => true
  | Callback _ None => true
  | _ => false
  end.

(** An environment in which the messaging client is unreachable. *)
Definition offline_env : Env :=
  {| raises := fun _ ev =>
       match ev with
       | EditMessageText _ _ _ | EditMessageReplyMarkup _ _ _ | Answer _ _ _ =>
           Some (NetworkError "unreachable")
       | _ => None
       end;
     new_message_id := fun tr => Z.of_nat (length tr) |}.

(** An environment in which the callback ["mail"] raises. *)
Definition mail_fails_env : Env :=
  {| raises := fun _ ev =>
       match ev with
       | Callback "mail" _ => Some (NetworkError "smtp")
       | _ => None
       end;
     new_message_id := fun tr => Z.of_nat (length tr) |}.

(** [dialog_ab] with a cancel-callback and a finished-callback. *)
Definition dialog_cancel_callbacks : Dialog :=
  add_finished_callback "stats" (add_cancel_callback "undo" dialog_ab).

(** A DialogData without a displayed message. *)
Definition dialog_data_fresh : DialogData :=
  {| dd_field := "dlg"; dd_content := empty_content |}.

(** An environment in which every edit is answered "not modified". *)
Definition unchanged_env : Env :=
  {| raises := fun _ ev =>
       match ev with
       | EditMessageText _ _ _ | EditMessageReplyMarkup _ _ _ => Some MessageNotModified
       | _ => None
       end;
     new_message_id := fun tr => Z.of_nat (length tr) |}.

(** The callback's message shows the text of step [fa]. *)
Definition message_shown_a : Message := {| chat_id := 5; text := Some "Enter fa" |}.

(** The DialogData a handler starts with. *)
Definition loaded (d : Dialog) (w : World) : DialogData :=
  {| dd_field := dialog_field d;
     dd_content := default empty_content (store w !! dialog_field d) |}.

(** A step's processing operation is called. *)
Definition is_process (ev : event) : bool :=
  match ev with
  | ProcessMessage _ _ | ProcessCallback _ _ => true
  | _ => false
  end.

(** DialogData is committed. *)
Definition is_commit (ev : event) : bool :=
  match ev with
  | Commit _ => true
  | _ => false
  end.

(** The chat's state is set. *)
Definition is_set_state (ev : event) : bool :=
  match ev with
  | SetState _ => true
  | _ => false
  end.

(** [m] extends the trace by events that satisfy [P], and writes the
    store only if it commits. *)
Definition traces (P : event -> Prop) {A : Type} (m : M A) : Prop :=
  forall w r w', m w = (r, w') ->
    exists tr, trace w' = trace w ++ tr /\ Forall P tr /\
               (Forall (fun ev => is_commit ev = false) tr -> store w' = store w).

(** A step that stores the text and names [target] as the next state;
    the text ["boom"] makes it raise [KeyError]. *)
Definition jump_step (field : string) (target : directive) : Step :=
  {| step_can_cancel := true; step_can_back := true;
     step_can_done := true; step_can_skip := true;
     step_field := field; step_back := BackNotImplemented;
     step_render_text := fun _ _ => "Enter " +:+ field;
     step_render_kbd := fun _ => None;
     step_process_message := fun m _ =>
       match text m with
       | Some "boom" => Raise (KeyError None)
       | Some t => Ret (PyStr t, target)
       | None => Raise (ValueError "no text")
       end;
     step_process_callback := fun c _ =>
       match data c with
       | Some "boom" => Raise (KeyError None)
       | Some "bad" => Raise (ValueError "not a number")
       | Some t => Ret (PyStr t, target)
       | None => Raise (ValueError "no data")
       end |}.

(** A dialog whose first step jumps to a state that is not registered. *)
Definition dialog_jump : Dialog :=
  Dialog_init [(KState {| state := Some "a" |}, jump_step "fa" (DValue (Some "zzz")));
               (KState {| state := Some "b" |}, jump_step "fb" DNotImplemented)]
    true true false false "" "dlg" None.

(** A dialog of two steps that use the default next state. *)
Definition dialog_steps : Dialog :=
  Dialog_init [(KState {| state := Some "a" |}, jump_step "fa" DNotImplemented);
               (KState {| state := Some "b" |}, jump_step "fb" DNotImplemented)]
    true true false true "" "dlg" None.

Definition message_hi : Message := {| chat_id := 5; text := Some "hi" |}.

Definition message_boom : Message := {| chat_id := 5; text := Some "boom" |}.

Definition callback_pick : CallbackQuery :=
  {| data := Some "pick"; message := message_shown_a |}.

Definition callback_bad : CallbackQuery :=
  {| data := Some "bad"; message := message_shown_a |}.

Definition callback_skip : CallbackQuery :=
  {| data := Some "[skip]"; message := message_shown_a |}.

Definition callback_done : CallbackQuery :=
  {| data := Some "[done]"; message := message_shown_a |}.

(** An environment in which acknowledging a callback fails. *)
Definition answer_fails_env : Env :=
  {| raises := fun _ ev =>
       match ev with
       | AnswerCallback => Some (NetworkError "query is too old")
       | _ => None
       end;
     new_message_id := fun tr => Z.of_nat (length tr) |}.

(** A dialog without steps. *)
Definition dialog_empty : Dialog :=
  Dialog_init [] true true false false "" "dlg" None.

(** A chat that has not started any dialog. *)
Definition world_new : World :=
  {| chat_state := None; store := ∅; trace := [] |}.

(** The buttons of the visible leaves of a keyboard tree, in order; a
    hidden group hides all its children. *)
Fixpoint leaves (k : Keyboard) (data : gmap string pyval) : list InlineKeyboardButton :=
  if negb (is_ k data) then []
  else
    match k with
    | BaseKeyboard _ => []
    | Button text callback_data _ _ =>
        [ {| btn_text := text data;
             btn_callback_data := Some (callback_data data);
             btn_uri := None |} ]
    | Uri text uri _ =>
        [ {| btn_text := text data;
             btn_callback_data := None;
             btn_uri := Some (uri data) |} ]
    | Group buttons _ _ _ => concat (map (fun b => leaves b data) buttons)
    end.

(** Every group of the tree keeps its children's rows, and no node is
    an instance of the base class. *)
Fixpoint all_keep_rows (k : Keyboard) : bool :=
  match k with
  | BaseKeyboard _ => false
  | Button _ _ _ _ | Uri _ _ _ => true
  | Group buttons keep_rows _ _ => keep_rows && forallb all_keep_rows buttons
  end.

(** A tree of nested groups with a hidden button. *)
Definition sample_tree : Keyboard :=
  Group [sample_button "1" always;
         Group [sample_button "2" never; sample_button "3" always] true 5 always;
         Group [sample_button "4" always] true 0 never;
         sample_button "5" always] true 2 always.




(** * Properties *)

(** ** Lists: [index] and [getitem] *)

Lemma index_Ret (l : list state_id) (x : state_id) (i : nat) :
  index l x = Ret i -> l !! i = Some x.
Proof.
  revert i. induction l as [|y l IH]; intros i; simpl; [discriminate|].
  destruct (decide (y = x)) as [->|Hne].
  - intros [= <-]. reflexivity.
  - destruct (index l x) as [j|e] eqn:E; [|discriminate].
    intros [= <-]. simpl. by apply IH.
Qed.

Lemma index_not_in (l : list state_id) (x : state_id) :
  x ∉ l -> index l x = Raise (ValueError (repr x +:+ " is not in list")).
Proof.
  induction l as [|y l IH]; simpl; [done|].
  intros Hx. apply not_elem_of_cons in Hx as [Hne Hx].
  destruct (decide (y = x)); [congruence|]. by rewrite IH.
Qed.

Lemma index_in (l : list state_id) (x : state_id) :
  x ∈ l -> exists i, index l x = Ret i.
Proof.
  induction l as [|y l IH]; simpl.
  - intros H. by apply elem_of_nil in H.
  - intros H. destruct (decide (y = x)); [by exists 0|].
    apply elem_of_cons in H as [->|H]; [done|].
    destruct (IH H) as [i ->]. by exists (S i).
Qed.

Lemma index_head (l : list state_id) (x : state_id) :
  index l x = Ret 0 <-> head l = Some x.
Proof.
  destruct l as [|y l]; simpl; [split; discriminate|].
  destruct (decide (y = x)) as [->|Hne].
  - done.
  - split; [|intros [= ?]; done].
    destruct (index l x); discriminate.
Qed.

Lemma index_NoDup (l : list state_id) (x : state_id) (k : nat) :
  NoDup l -> l !! k = Some x -> index l x = Ret k.
Proof.
  intros Hnd. revert k. induction Hnd as [|y l Hy Hnd IH]; intros k; [done|].
  destruct k as [|k]; simpl.
  - intros [= ->]. by rewrite decide_True.
  - intros Hk. rewrite decide_False.
    + by rewrite (IH k Hk).
    + intros ->. apply Hy. by eapply list_elem_of_lookup_2.
Qed.

Lemma getitem_nat {A : Type} (l : list A) (i : nat) :
  getitem l (Z.of_nat i) =
  match l !! i with Some x => Ret x | None => Raise IndexError end.
Proof.
  unfold getitem.
  assert ((Z.of_nat i <? 0)%Z = false) as H0 by (apply Z.ltb_ge; lia).
  rewrite !H0, Nat2Z.id. simpl.
  destruct (Z.leb_spec (Z.of_nat (length l)) (Z.of_nat i)) as [Hle|Hlt]; [|done].
  rewrite lookup_ge_None_2; [done|lia].
Qed.

(** ** Dictionaries *)

Lemma dict_set_keys_in {V : Type} (k : state_id) (v : V) (d : list (state_id * V)) :
  k ∈ map fst d -> map fst (dict_set k v d) = map fst d.
Proof.
  induction d as [|[k' v'] d IH]; simpl.
  - intros []%elem_of_nil.
  - intros Hk. destruct (decide (k' = k)) as [->|Hne]; simpl; [done|].
    apply elem_of_cons in Hk as [->|Hk]; [done|]. by rewrite IH.
Qed.

Lemma dict_set_keys_fresh {V : Type} (k : state_id) (v : V) (d : list (state_id * V)) :
  k ∉ map fst d -> map fst (dict_set k v d) = map fst d ++ [k].
Proof.
  induction d as [|[k' v'] d IH]; simpl; [done|].
  intros [Hne Hk]%not_elem_of_cons.
  destruct (decide (k' = k)); [congruence|]. simpl. by rewrite IH.
Qed.

Lemma dict_set_NoDup {V : Type} (k : state_id) (v : V) (d : list (state_id * V)) :
  NoDup (map fst d) -> NoDup (map fst (dict_set k v d)).
Proof.
  intros Hnd. destruct (decide (k ∈ map fst d)) as [Hk|Hk].
  - by rewrite dict_set_keys_in.
  - rewrite dict_set_keys_fresh by done.
    apply NoDup_app. split_and!; [done| |apply NoDup_singleton].
    intros x Hx ->%list_elem_of_singleton. done.
Qed.

Lemma init_steps_NoDup (items : list (steps_key * Step)) (acc : list (state_id * Step)) :
  NoDup (map fst acc) -> NoDup (map fst (init_steps items acc)).
Proof.
  revert acc. induction items as [|[s step] items IH]; intros acc Hacc; simpl; [done|].
  apply IH. by apply dict_set_NoDup.
Qed.

Lemma dict_get_Some {V : Type} (k : state_id) (d : list (state_id * V)) :
  is_Some (dict_get k d) <-> k ∈ map fst d.
Proof.
  induction d as [|[k' v'] d IH]; simpl.
  - split; [intros [? [=]]|intros []%elem_of_nil].
  - destruct (decide (k' = k)) as [->|Hne].
    + split; [intros _; apply elem_of_cons; by left|by eauto].
    + rewrite IH, elem_of_cons. split; [by right|].
      intros [?|?]; congruence.
Qed.

Lemma dict_get_None {V : Type} (k : state_id) (d : list (state_id * V)) :
  dict_get k d = None <-> k ∉ map fst d.
Proof. rewrite <- dict_get_Some, eq_None_not_Some. done. Qed.

(** ** The invariant of a constructed dialog *)

Lemma Dialog_init_wf steps0 cc cb cd cs prefix field texts0 :
  wf_dialog (Dialog_init steps0 cc cb cd cs prefix field texts0).
Proof.
  split; simpl.
  - reflexivity.
  - apply init_steps_NoDup. constructor.
  - by exists prefix.
Qed.

Lemma add_done_callback_wf c d : wf_dialog d -> wf_dialog (add_done_callback c d).
Proof. intros [H1 H2 H3]. by split. Qed.

Lemma add_finished_callback_wf c d : wf_dialog d -> wf_dialog (add_finished_callback c d).
Proof. intros [H1 H2 H3]. by split. Qed.

Lemma add_cancel_callback_wf c d : wf_dialog d -> wf_dialog (add_cancel_callback c d).
Proof. intros [H1 H2 H3]. by split. Qed.

Lemma append_inj_r (p a b : string) : p +:+ a = p +:+ b -> a = b.
Proof. induction p as [|ch p IH]; simpl; [done|]. intros [= H]. by apply IH. Qed.


(** ** [next_step] *)

Lemma next_step_falsy (d : Dialog) (current_state : state_id) :
  truthy current_state = false ->
  next_step d current_state = getitem (states d) 0.
Proof. unfold next_step. by intros ->. Qed.

Lemma next_step_truthy (d : Dialog) (current_state : state_id) (K : nat) :
  NoDup (states d) -> truthy current_state = true ->
  states d !! K = Some current_state ->
  next_step d current_state =
  match states d !! (K + 1) with Some s => Ret s | None => Ret None end.
Proof.
  intros Hnd Ht HK. unfold next_step. rewrite Ht. simpl.
  rewrite (index_NoDup _ _ K Hnd HK).
  replace (Z.of_nat K + 1)%Z with (Z.of_nat (K + 1)) by lia.
  rewrite getitem_nat. by destruct (states d !! (K + 1)).
Qed.

(** C2, as amended: for a dialog with N ordered states, [next_step] of an
    absent (falsy) current state is the first state; of a truthy state at
    position K < N-1 it is the state at position K+1; of a truthy state at
    position N-1 it is [None]. *)
Theorem next_step_positional (d : Dialog) :
  NoDup (states d) ->
  (forall current_state s0, truthy current_state = false ->
     states d !! 0 = Some s0 -> next_step d current_state = Ret s0) /\
  (forall (K : nat) s s', truthy s = true ->
     states d !! K = Some s -> states d !! (K + 1) = Some s' ->
     next_step d s = Ret s') /\
  (forall (K : nat) s, truthy s = true ->
     states d !! K = Some s -> K + 1 = length (states d) ->
     next_step d s = Ret None).
Proof.
  intros Hnd. split_and!.
  - intros cur s0 Hf H0. rewrite next_step_falsy by done.
    change 0%Z with (Z.of_nat 0). by rewrite getitem_nat, H0.
  - intros K s s' Ht HK HK'. by rewrite (next_step_truthy d s K), HK'.
  - intros K s Ht HK HN. rewrite (next_step_truthy d s K) by done.
    rewrite lookup_ge_None_2; [done|lia].
Qed.

Lemma next_step_positional_witness :
  next_step dialog_ab None = Ret (Some "a") /\
  next_step dialog_ab (Some "a") = Ret (Some "b") /\
  next_step dialog_ab (Some "b") = Ret None.
Proof.
  destruct (next_step_positional dialog_ab) as (H0 & H1 & H2).
  { compute_done. }
  split_and!.
  - apply H0; reflexivity.
  - apply (H1 0); reflexivity.
  - apply (H2 1); reflexivity.
Defined.

(** C2, as stated, fails for a dialog whose first state is the empty
    string: that state is falsy, so [next_step] answers the first state
    again instead of the second. *)
Lemma next_step_claim_empty_first : ~ next_step_claim dialog_empty_first.
Proof.
  intros (_ & H & _).
  specialize (H 0 (Some "") (Some "b") eq_refl eq_refl).
  vm_compute in H. discriminate.
Qed.

(** ** [can_back] *)

Lemma can_back_Some (d : Dialog) (st : state_id) (s : Step) :
  can_back d st (Some s) =
  match index (states d) st with
  | Raise e => Raise e
  | Ret 0 => Ret false
  | Ret (S _) => Ret (_can_back d && step_can_back s)
  end.
Proof.
  unfold can_back. destruct (index (states d) st) as [[|i]|e]; try done.
  destruct (Z.ltb_spec (Z.of_nat (S i)) 1); [lia|done].
Qed.

(** C3, as amended: [can_back] is false when the step is absent or the
    state is the first of the list, whatever the flags; for any other
    registered state it is the conjunction of the dialog's back flag and
    the step's own. *)
Theorem can_back_registered (d : Dialog) (st : state_id) (step : option Step) :
  (step = None \/ head (states d) = Some st -> can_back d st step = Ret false) /\
  (forall s, step = Some s -> head (states d) <> Some st -> st ∈ states d ->
     can_back d st step = Ret (_can_back d && step_can_back s)).
Proof.
  split.
  - intros [->|Hh]; [done|]. destruct step as [s|]; [|done].
    apply index_head in Hh. by rewrite can_back_Some, Hh.
  - intros s -> Hh [i Hi]%index_in. rewrite can_back_Some, Hi.
    destruct i; [|done]. by apply index_head in Hi.
Qed.

Lemma can_back_registered_witness :
  can_back dialog_ab (Some "a") (Some (sample_step "fa" BackNotImplemented)) = Ret false /\
  can_back dialog_ab (Some "b") (Some (sample_step "fb" BackNotImplemented)) = Ret true.
Proof.
  split.
  - apply (proj1 (can_back_registered dialog_ab (Some "a") _)). right. reflexivity.
  - apply (proj2 (can_back_registered dialog_ab (Some "b") _)
             (sample_step "fb" BackNotImplemented)).
    + reflexivity.
    + vm_compute. discriminate.
    + compute_done.
Defined.

(** C3, as stated, fails for a state that is not registered: with a step
    present the positional lookup raises instead of answering. *)
Lemma can_back_claim_unregistered :
  ~ can_back_claim dialog_ab (Some "zzz") (Some (sample_step "fa" BackNotImplemented)).
Proof. vm_compute. discriminate. Qed.

(** C10: [can_back] is not total: with a step present and a state that is
    not registered it raises the [ValueError] of the positional lookup,
    and it returns a boolean exactly when the step is absent or the state
    is registered. *)
Theorem can_back_not_total (d : Dialog) (st : state_id) (step : option Step) :
  (forall s, step = Some s -> st ∉ states d ->
     can_back d st step = Raise (ValueError (repr st +:+ " is not in list"))) /\
  ((exists b, can_back d st step = Ret b) <-> step = None \/ st ∈ states d).
Proof.
  split.
  - intros s -> Hst. by rewrite can_back_Some, index_not_in.
  - split.
    + intros [b Hb]. destruct step as [s|]; [right|by left].
      destruct (decide (st ∈ states d)) as [|Hn]; [done|].
      rewrite can_back_Some, index_not_in in Hb by done. discriminate.
    + intros [->|[i Hi]%index_in]; [by exists false|].
      destruct step as [s|]; [|by exists false].
      rewrite can_back_Some, Hi. destruct i; eauto.
Qed.

Lemma can_back_not_total_witness :
  can_back dialog_ab (Some "zzz") (Some (sample_step "fa" BackNotImplemented))
  = Raise (ValueError "'zzz' is not in list").
Proof.
  apply (proj1 (can_back_not_total dialog_ab (Some "zzz") _)
           (sample_step "fa" BackNotImplemented)).
  - reflexivity.
  - compute_done.
Defined.

(** ** Keyboards *)

Lemma render_kbd_unfold (k : Keyboard) (data : gmap string pyval) :
  render_kbd k data = if negb (is_ k data) then Ret [] else _render_kbd k data.
Proof. by destruct k. Qed.

Lemma render_kbd_hidden (k : Keyboard) (data : gmap string pyval) :
  is_ k data = false -> render_kbd k data = Ret [].
Proof. intros H. by rewrite render_kbd_unfold, H. Qed.

Lemma render_kbd_leaf (k : Keyboard) (data : gmap string pyval) :
  is_leaf k = true -> is_ k data = true ->
  exists b, render_kbd k data = Ret [[b]].
Proof.
  intros Hl Hv. rewrite render_kbd_unfold, Hv. destruct k; try discriminate; simpl; eauto.
Qed.

Lemma group_loop_foldl (render : Keyboard -> result Markup) (keep_rows : bool)
    (buttons : list Keyboard) (rs : list Markup) (kbd : Markup) :
  Forall2 (fun b r => render b = Ret r) buttons rs ->
  group_loop render keep_rows buttons kbd = Ret (foldl (group_add keep_rows) kbd rs).
Proof.
  intros H. revert kbd. induction H as [|b r bs rs Hb _ IH]; intros kbd; simpl; [done|].
  by rewrite Hb, IH.
Qed.

Lemma render_kbd_Group (buttons : list Keyboard) (keep_rows : bool) (width : Z)
    (when : When) (data : gmap string pyval) (rs : list Markup) :
  when data = true ->
  Forall2 (fun b r => render_kbd b data = Ret r) buttons rs ->
  render_kbd (Group buttons keep_rows width when) data =
  group_finish keep_rows width (foldl (group_add keep_rows) [] rs).
Proof.
  intros Hw H. rewrite render_kbd_unfold. simpl. rewrite Hw. simpl.
  by rewrite (group_loop_foldl _ _ _ rs).
Qed.

Lemma foldl_group_add_keep (rs : list Markup) (kbd : Markup) :
  foldl (group_add true) kbd rs = kbd ++ concat rs.
Proof.
  revert kbd. induction rs as [|r rs IH]; intros kbd; simpl.
  - by rewrite app_nil_r.
  - rewrite IH. replace (group_add true kbd r) with (kbd ++ r) by by destruct kbd.
    by rewrite <- app_assoc.
Qed.

(** With [keep_rows] every child's rows are kept as they are, whatever the
    width. *)
Lemma render_kbd_keep_rows (buttons : list Keyboard) (width : Z) (when : When)
    (data : gmap string pyval) (rs : list Markup) :
  when data = true ->
  Forall2 (fun b r => render_kbd b data = Ret r) buttons rs ->
  render_kbd (Group buttons true width when) data = Ret (concat rs).
Proof.
  intros Hw H. rewrite (render_kbd_Group _ _ _ _ _ rs) by done.
  by rewrite foldl_group_add_keep.
Qed.

Lemma foldl_group_add_empty (keep_rows : bool) (rs : list Markup) :
  Forall (fun r => r = []) rs -> foldl (group_add keep_rows) [] rs = [].
Proof. induction 1 as [|r rs Hr _ IH]; simpl; [done|]. by rewrite Hr. Qed.

Lemma foldl_group_add_flat (rs : list Markup) (row : list InlineKeyboardButton)
    (rest : Markup) :
  foldl (group_add false) (row :: rest) rs = (row ++ concat (concat rs)) :: rest.
Proof.
  revert row. induction rs as [|r rs IH]; intros row; simpl.
  - by rewrite app_nil_r.
  - rewrite IH. by rewrite concat_app, app_assoc.
Qed.

(** Without [keep_rows], children that render at most one row each are
    flattened into a single row. *)
Lemma foldl_group_add_single_rows (rs : list Markup) :
  Forall (fun r => length r <= 1) rs ->
  foldl (group_add false) [] rs = [] /\ Forall (fun r => r = []) rs \/
  foldl (group_add false) [] rs = [concat (concat rs)].
Proof.
  induction 1 as [|r rs Hr Hrs IH]; simpl; [by left|].
  destruct r as [|row [|row' r]]; simpl in *; [| |lia].
  - destruct IH as [[IH1 IH2]|IH1]; rewrite IH1; [left|right]; auto.
  - right. by rewrite foldl_group_add_flat.
Qed.

(** Without [keep_rows], children that render at most one row each, not
    all of them empty, make one row, which a non-zero width re-wraps. *)
Lemma render_kbd_flat (buttons : list Keyboard) (width : Z) (when : When)
    (data : gmap string pyval) (rs : list Markup) :
  when data = true ->
  Forall2 (fun b r => render_kbd b data = Ret r) buttons rs ->
  Forall (fun r => length r <= 1) rs ->
  ~ Forall (fun r => r = []) rs ->
  render_kbd (Group buttons false width when) data =
  Ret (if (width =? 0)%Z then [concat (concat rs)]
       else _wrap_kbd width (concat (concat rs))).
Proof.
  intros Hw H Hrows Hne. rewrite (render_kbd_Group _ _ _ _ _ rs) by done.
  destruct (foldl_group_add_single_rows rs Hrows) as [[_ ?]| ->]; [done|].
  unfold group_finish. simpl. by destruct (width =? 0)%Z.
Qed.

Lemma wrap_loop_res (w : Z) (kbd : list InlineKeyboardButton) (res : Markup)
    (row : list InlineKeyboardButton) :
  wrap_loop w kbd res row = res ++ wrap_loop w kbd [] row.
Proof.
  revert res row. induction kbd as [|b kbd IH]; intros res row; simpl.
  - destruct row; [by rewrite app_nil_r|done].
  - destruct (w <=? _)%Z.
    + rewrite (IH (res ++ _)), (IH [_]). by rewrite <- app_assoc.
    + apply IH.
Qed.

Lemma wrap_loop_wrapped (w : nat) (kbd row : list InlineKeyboardButton) :
  length row < w ->
  concat (wrap_loop (Z.of_nat w) kbd [] row) = row ++ kbd /\
  wrapped w (wrap_loop (Z.of_nat w) kbd [] row).
Proof.
  revert row. induction kbd as [|b kbd IH]; intros row Hrow; simpl.
  - destruct row as [|x row]; simpl.
    + split; [done|constructor].
    + rewrite !app_nil_r. split; [done|]. apply wrapped_last. simpl in *. lia.
  - assert (length (row ++ [b]) = S (length row)) as Hlen
      by (rewrite length_app; simpl; lia).
    destruct (Z.leb_spec (Z.of_nat w) (Z.of_nat (length (row ++ [b])))) as [Hle|Hlt].
    + rewrite wrap_loop_res. destruct (IH []) as [Hc Hw]; [simpl; lia|].
      simpl. rewrite Hc. simpl. rewrite <- app_assoc. split; [done|].
      apply wrapped_cons; [lia|done].
    + destruct (IH (row ++ [b])) as [Hc Hw]; [lia|].
      rewrite Hc, <- app_assoc. done.
Qed.

(** [_wrap_kbd] with a positive width keeps the buttons and their order
    and yields rows of exactly [width] buttons, the last one possibly
    shorter. *)
Lemma _wrap_kbd_wrapped (w : nat) (kbd : list InlineKeyboardButton) :
  0 < w ->
  concat (_wrap_kbd (Z.of_nat w) kbd) = kbd /\ wrapped w (_wrap_kbd (Z.of_nat w) kbd).
Proof. intros Hw. by apply (wrap_loop_wrapped w kbd []). Qed.

(** Five visible leaf buttons in a group without [keep_rows] and with
    width 2 render rows of sizes 2, 2 and 1. *)
Lemma render_kbd_five_leaves (b1 b2 b3 b4 b5 : Keyboard) (when : When)
    (data : gmap string pyval) :
  when data = true ->
  Forall (fun b => is_leaf b = true /\ is_ b data = true) [b1; b2; b3; b4; b5] ->
  exists kbd, render_kbd (Group [b1; b2; b3; b4; b5] false 2 when) data = Ret kbd /\
              map length kbd = [2; 2; 1].
Proof.
  intros Hw H.
  rewrite !Forall_cons in H.
  destruct H as ([? ?] & [? ?] & [? ?] & [? ?] & [? ?] & _).
  destruct (render_kbd_leaf b1 data) as [x1 R1]; [done..|].
  destruct (render_kbd_leaf b2 data) as [x2 R2]; [done..|].
  destruct (render_kbd_leaf b3 data) as [x3 R3]; [done..|].
  destruct (render_kbd_leaf b4 data) as [x4 R4]; [done..|].
  destruct (render_kbd_leaf b5 data) as [x5 R5]; [done..|].
  eexists. split.
  - rewrite (render_kbd_Group _ _ _ _ _ [[[x1]]; [[x2]]; [[x3]]; [[x4]]; [[x5]]]);
      [reflexivity|done|].
    repeat (constructor; [done|]). constructor.
  - reflexivity.
Qed.

(** When every child renders empty, the group renders empty with
    [keep_rows] or with width 0; otherwise the row to wrap is missing. *)
Lemma render_kbd_Group_empty (buttons : list Keyboard) (keep_rows : bool)
    (width : Z) (when : When) (data : gmap string pyval) :
  when data = true ->
  Forall (fun b => render_kbd b data = Ret []) buttons ->
  render_kbd (Group buttons keep_rows width when) data =
  if negb keep_rows && negb (width =? 0)%Z then Raise IndexError else Ret [].
Proof.
  intros Hw H.
  rewrite (render_kbd_Group _ _ _ _ _ (replicate (length buttons) [])); [|done|].
  - rewrite foldl_group_add_empty by apply Forall_replicate, eq_refl.
    unfold group_finish. by destruct (negb keep_rows && negb (width =? 0)%Z).
  - induction H as [|b bs Hb _ IH]; simpl; by constructor.
Qed.

(** C4: a group without [keep_rows] whose first child renders two rows
    does not flatten them: without a width the second row of that child
    stays a row of its own, and with width 2 it is lost. *)
Theorem render_kbd_first_child_rows (data : gmap string pyval) :
  let inner := Group [sample_button "1" always; sample_button "2" always] true 0 always in
  render_kbd (Group [inner; sample_button "3" always] false 0 always) data
  = Ret [[rendered "1"; rendered "3"]; [rendered "2"]] /\
  render_kbd (Group [inner; sample_button "3" always] false 2 always) data
  = Ret [[rendered "1"; rendered "3"]].
Proof. split; reflexivity. Qed.

(** C5: a group without [keep_rows] and with width 2 whose only child is
    hidden does not render empty: it raises [IndexError]. *)
Theorem render_kbd_hidden_children_raise (data : gmap string pyval) :
  render_kbd (sample_button "1" never) data = Ret [] /\
  render_kbd (Group [sample_button "1" never] false 2 always) data = Raise IndexError.
Proof. split; reflexivity. Qed.

(** ** Running the monad *)

Lemma bind_run {A B : Type} (m : M A) (k : A -> M B) (w : World) :
  bind m k w = match m w with
               | (Ret a, w') => k a w'
               | (Raise e, w') => (Raise e, w')
               end.
Proof. reflexivity. Qed.

Section Emits.
Context (P : event -> Prop).

Lemma emits_ret {A : Type} (a : A) : emits P (ret a).
Proof. intros w r w' [= <- <-]. split_and!; [done..|]. exists []. by rewrite app_nil_r. Qed.

Lemma emits_raise {A : Type} (e : exn) : emits P (raise (A := A) e).
Proof. intros w r w' [= <- <-]. split_and!; [done..|]. exists []. by rewrite app_nil_r. Qed.

Lemma emits_lift {A : Type} (x : result A) : emits P (lift x).
Proof. intros w r w' [= <- <-]. split_and!; [done..|]. exists []. by rewrite app_nil_r. Qed.

Lemma emits_log (ev : event) : P ev -> emits P (log ev).
Proof. intros HP w r w' [= <- <-]. simpl. split_and!; [done..|]. exists [ev]. auto. Qed.

Lemma emits_emit (env : Env) (ev : event) : P ev -> emits P (emit env ev).
Proof.
  intros HP w r w'. unfold emit.
  destruct (raises env (trace w) ev); intros [= <- <-]; simpl;
    (split_and!; [done..|]; exists [ev]; auto).
Qed.

Lemma emits_bind {A B : Type} (m : M A) (k : A -> M B) :
  emits P m -> (forall a, emits P (k a)) -> emits P (bind m k).
Proof.
  intros Hm Hk w r w'. rewrite bind_run.
  destruct (m w) as [[a|e] w1] eqn:E; apply Hm in E as (Hc & Hs & tr & Ht & HP).
  - intros E2. apply Hk in E2 as (Hc2 & Hs2 & tr2 & Ht2 & HP2).
    split_and!; [congruence..|]. exists (tr ++ tr2).
    split; [by rewrite Ht2, Ht, app_assoc|by apply Forall_app].
  - intros [= <- <-]. eauto.
Qed.

Lemma emits_except_not_modified (m : M unit) :
  emits P m -> emits P (except_not_modified m).
Proof.
  intros Hm w r w'. unfold except_not_modified.
  destruct (m w) as [[a|e] w1] eqn:E; apply Hm in E.
  - by intros [= <- <-].
  - by destruct e; intros [= <- <-].
Qed.

Lemma emits_for_each {A : Type} (l : list A) (body : A -> M unit) :
  (forall a, emits P (body a)) -> emits P (for_each l body).
Proof.
  intros Hb. induction l as [|a l IH]; simpl.
  - apply emits_ret.
  - apply emits_bind; [apply Hb|by intros _].
Qed.

Lemma emits_if {A : Type} (b : bool) (m1 m2 : M A) :
  emits P m1 -> emits P m2 -> emits P (if b then m1 else m2).
Proof. by destruct b. Qed.

Lemma emits_answer (env : Env) (m : Message) (t : string) (kbd : Markup) :
  P (Answer (chat_id m) t kbd) -> emits P (answer env m t kbd).
Proof.
  intros HP w r w'. unfold answer.
  destruct (emit env _ w) as [[a|e] w1] eqn:E;
    (apply emits_emit in E; [|done]); by intros [= <- <-].
Qed.

End Emits.

Ltac emits_step :=
  lazymatch goal with
  | |- emits _ (bind _ _) => apply emits_bind; [|intros ?]
  | |- emits _ (if _ then _ else _) => apply emits_if
  | |- emits _ (except_not_modified _) => apply emits_except_not_modified
  | |- emits _ (for_each _ _) => apply emits_for_each; intros ?
  | |- emits _ (ret _) => apply emits_ret
  | |- emits _ (raise _) => apply emits_raise
  | |- emits _ (lift _) => apply emits_lift
  | |- emits _ (log _) => apply emits_log
  | |- emits _ (emit _ _) => apply emits_emit
  | |- emits _ (answer _ _ _ _) => apply emits_answer
  end.

Ltac emits := repeat emits_step; try done.

Lemma emits_clear_markup (P : event -> Prop) (env : Env) (m : Message) (id : option Z) :
  (forall i, P (EditMessageReplyMarkup (chat_id m) i None)) ->
  emits P (clear_markup env m id).
Proof. intros HP. unfold clear_markup. emits. Qed.

Lemma emits_get_kbd (P : event -> Prop) (d : Dialog) (st : state_id) (step : Step)
    (bag : gmap string pyval) :
  P (RenderKbd st bag) -> emits P (get_kbd d st step bag).
Proof. intros HP. unfold get_kbd. emits. Qed.

Lemma emits_done (P : event -> Prop) (env : Env) (d : Dialog) (m : Message)
    (dd : DialogData) :
  (forall ev, is_send ev = false -> P ev) ->
  emits P (done env d m dd).
Proof.
  intros HP. unfold done, _do_finish, _notify_finish, dd_reset.
  emits; try by apply HP.
  apply emits_clear_markup. intros i. by apply HP.
Qed.

(** An edit of the displayed message sends nothing new. *)
Lemma emits_edit_in_place (env : Env) (d : Dialog) (m : Message) (dd : DialogData)
    (new_text : string) (next_state : state_id) (next_step : Step) :
  truthy_id (dd_message_id dd) = true ->
  emits (fun ev => is_send ev = false)
        (edit_or_send env d m dd new_text next_state next_step true).
Proof.
  intros Hid. unfold edit_or_send. rewrite Hid. simpl. emits.
  by apply emits_get_kbd.
Qed.

Lemma emits_edit_or_send (env : Env) (d : Dialog) (m : Message) (dd : DialogData)
    (new_text : string) (next_state : state_id) (next_step : Step) (edit : bool) :
  emits (fun _ => True) (edit_or_send env d m dd new_text next_state next_step edit).
Proof.
  unfold edit_or_send. emits; by first [apply emits_get_kbd|apply emits_clear_markup].
Qed.

(** ** What a computation returns *)

Lemma returns_ret {A : Type} (Q : A -> Prop) (a : A) : Q a -> returns Q (ret a).
Proof. by intros HQ w a' w' [= <- _]. Qed.

Lemma returns_bind {A B : Type} (Q : B -> Prop) (m : M A) (k : A -> M B) :
  (forall a, returns Q (k a)) -> returns Q (bind m k).
Proof.
  intros Hk w b w'. rewrite bind_run. destruct (m w) as [[a|e] w1]; [|done].
  apply Hk.
Qed.

Lemma returns_if {A : Type} (Q : A -> Prop) (b : bool) (m1 m2 : M A) :
  returns Q m1 -> returns Q m2 -> returns Q (if b then m1 else m2).
Proof. by destruct b. Qed.

Lemma returns_edit_or_send (env : Env) (d : Dialog) (m : Message) (dd : DialogData)
    (new_text : string) (next_state : state_id) (next_step : Step) (edit : bool) :
  returns (fun dd' => dd_data dd' = dd_data dd /\ dd_field dd' = dd_field dd)
          (edit_or_send env d m dd new_text next_state next_step edit).
Proof.
  unfold edit_or_send. apply returns_if;
    repeat (apply returns_bind; intros ?); by apply returns_ret.
Qed.

(** ** Computations that do not raise *)

Lemma succeeds_ret {A : Type} (a : A) : succeeds (ret a).
Proof. intros w. by eexists _, _. Qed.

Lemma succeeds_lift {A : Type} (a : A) : succeeds (lift (Ret a)).
Proof. intros w. by eexists _, _. Qed.

Lemma succeeds_log (ev : event) : succeeds (log ev).
Proof. intros w. by eexists _, _. Qed.

Lemma succeeds_emit (env : Env) (ev : event) : quiet env -> succeeds (emit env ev).
Proof. intros Hq w. unfold emit. rewrite Hq. by eexists _, _. Qed.

Lemma succeeds_bind {A B : Type} (m : M A) (k : A -> M B) :
  succeeds m -> (forall a, succeeds (k a)) -> succeeds (bind m k).
Proof.
  intros Hm Hk w. rewrite bind_run. destruct (Hm w) as (a & w1 & ->). apply Hk.
Qed.

Lemma succeeds_if {A : Type} (b : bool) (m1 m2 : M A) :
  succeeds m1 -> succeeds m2 -> succeeds (if b then m1 else m2).
Proof. by destruct b. Qed.

Lemma succeeds_except_not_modified (m : M unit) :
  succeeds m -> succeeds (except_not_modified m).
Proof.
  intros Hm w. unfold except_not_modified. destruct (Hm w) as (a & w1 & ->).
  by eexists _, _.
Qed.

Lemma succeeds_for_each {A : Type} (l : list A) (body : A -> M unit) :
  (forall a, succeeds (body a)) -> succeeds (for_each l body).
Proof.
  intros Hb. induction l as [|a l IH]; simpl; [apply succeeds_ret|].
  apply succeeds_bind; [apply Hb|by intros _].
Qed.

Lemma succeeds_answer (env : Env) (m : Message) (t : string) (kbd : Markup) :
  quiet env -> succeeds (answer env m t kbd).
Proof.
  intros Hq w. unfold answer.
  destruct (succeeds_emit env (Answer (chat_id m) t kbd) Hq w) as (a & w1 & ->).
  by eexists _, _.
Qed.

Lemma succeeds_set_state (st : state_id) : succeeds (set_state st).
Proof. intros w. by eexists _, _. Qed.

Lemma succeeds_dd_commit (dd : DialogData) : succeeds (dd_commit dd).
Proof. intros w. by eexists _, _. Qed.

Ltac succeeds_step :=
  lazymatch goal with
  | |- succeeds (bind _ _) => apply succeeds_bind; [|intros ?]
  | |- succeeds (if _ then _ else _) => apply succeeds_if
  | |- succeeds (except_not_modified _) => apply succeeds_except_not_modified
  | |- succeeds (for_each _ _) => apply succeeds_for_each; intros ?
  | |- succeeds (ret _) => apply succeeds_ret
  | |- succeeds (lift (Ret _)) => apply succeeds_lift
  | |- succeeds (log _) => apply succeeds_log
  | |- succeeds (set_state _) => apply succeeds_set_state
  | |- succeeds (dd_commit _) => apply succeeds_dd_commit
  | |- succeeds (emit _ _) => apply succeeds_emit
  | |- succeeds (answer _ _ _ _) => apply succeeds_answer
  end.

Ltac succeeds := repeat succeeds_step; try done.

Lemma succeeds_get_kbd (d : Dialog) (st : state_id) (step : Step)
    (bag : gmap string pyval) :
  st ∈ states d -> succeeds (get_kbd d st step bag).
Proof.
  intros [i Hi]%index_in. unfold get_kbd. rewrite can_back_Some, Hi.
  destruct i; succeeds.
Qed.

Lemma succeeds_switch_step (env : Env) (d : Dialog) (m : Message) (dd : DialogData)
    (error : option exn) (next_state : state_id) (next_step : Step) (edit : bool) :
  quiet env -> next_state ∈ states d ->
  succeeds (switch_step env d m dd error next_state next_step edit).
Proof.
  intros Hq Hin. unfold switch_step, edit_or_send, clear_markup.
  succeeds; by apply succeeds_get_kbd.
Qed.

Lemma succeeds_done (env : Env) (d : Dialog) (m : Message) (dd : DialogData) :
  quiet env -> succeeds (done env d m dd).
Proof.
  intros Hq. unfold done, _do_finish, _notify_finish, dd_reset, clear_markup.
  succeeds.
Qed.

(** What [switch_step] does to the world: the text is rendered first, with
    the error it was given; the store is not written; the chat's state is
    set to [next_state] exactly when it returns; an edit of a displayed
    message sends no new message. *)
Lemma switch_step_spec (env : Env) (d : Dialog) (m : Message) (dd : DialogData)
    (error : option exn) (next_state : state_id) (next_step : Step) (edit : bool)
    (w : World) (r : result DialogData) (w' : World) :
  switch_step env d m dd error next_state next_step edit w = (r, w') ->
  store w' = store w /\
  (exists tr, trace w' = trace w ++ RenderText next_state (dd_data dd) error :: tr /\
     (edit = true -> truthy_id (dd_message_id dd) = true ->
      Forall (fun ev => is_send ev = false) tr)) /\
  match r with
  | Ret dd' => chat_state w' = next_state /\ dd_data dd' = dd_data dd /\
               dd_field dd' = dd_field dd
  | Raise _ => chat_state w' = chat_state w
  end.
Proof.
  unfold switch_step. rewrite bind_run. simpl.
  set (w1 := {| chat_state := chat_state w; store := store w;
                trace := trace w ++ [RenderText next_state (dd_data dd) error] |}).
  rewrite bind_run.
  destruct (edit_or_send env d m dd _ next_state next_step edit w1)
    as [[dd1|e] w2] eqn:E.
  - pose proof (returns_edit_or_send _ _ _ _ _ _ _ _ _ _ _ E) as [Hd Hf].
    pose proof (emits_edit_or_send _ _ _ _ _ _ _ _ _ _ _ E) as (Hc & Hs & tr & Ht & _).
    intros [= <- <-]. simpl. split_and!; try done.
    exists (tr ++ [SetState next_state]). rewrite Ht. simpl.
    rewrite <- !app_assoc. split; [done|].
    intros -> Hid.
    pose proof (emits_edit_in_place _ _ _ _ _ _ _ Hid _ _ _ E) as (_ & _ & tr' & Ht' & HP).
    rewrite Ht in Ht'. apply app_inv_head in Ht' as ->.
    apply Forall_app. split; [done|]. by constructor.
  - pose proof (emits_edit_or_send _ _ _ _ _ _ _ _ _ _ _ E) as (Hc & Hs & tr & Ht & _).
    intros [= <- <-]. split_and!; try done.
    exists tr. rewrite Ht. simpl. rewrite <- !app_assoc. split; [done|].
    intros -> Hid.
    pose proof (emits_edit_in_place _ _ _ _ _ _ _ Hid _ _ _ E) as (_ & _ & tr' & Ht' & HP).
    rewrite Ht in Ht'. by apply app_inv_head in Ht' as ->.
Qed.

(** ** A validation failure in [handle_message] *)

Lemma dict_getitem_Some {V : Type} (k : state_id) (d : list (state_id * V)) (v : V) :
  dict_get k d = Some v -> dict_getitem k d = Ret v.
Proof. unfold dict_getitem. by intros ->. Qed.

Lemma handle_message_failure (env : Env) (d : Dialog) (m : Message) (w : World)
    (step : Step) (msg : string) :
  dict_get (chat_state w) (steps d) = Some step ->
  step_process_message step m (stored_bag d w) = Raise (ValueError msg) ->
  handle_message env d m w =
  (dd <- next env d (chat_state w) m
           {| dd_field := dialog_field d;
              dd_content := default empty_content (store w !! dialog_field d) |}
           true (Some (ValueError msg)) (DValue (chat_state w));;
   dd_commit dd)
    {| chat_state := chat_state w; store := store w;
       trace := trace w ++ [ProcessMessage (chat_state w) m] |}.
Proof.
  intros Hstep Hfail.
  assert (same_state (DValue (chat_state w)) (chat_state w) = true) as Hsame
    by (unfold same_state; by rewrite bool_decide_true).
  unfold handle_message, DialogData_init, get_state, bind at 1 2. rewrite Hstep.
  unfold bind at 1, log, dd_data. simpl. fold (stored_bag d w). rewrite Hfail.
  unfold bind at 1, ret. by rewrite Hsame.
Qed.

Lemma next_resolved (env : Env) (d : Dialog) (current_state : state_id) (m : Message)
    (dd : DialogData) (edit : bool) (error : option exn) (next_state : directive)
    (s : state_id) (w : World) :
  resolve d current_state next_state = Ret (inr s) ->
  next env d current_state m dd edit error next_state w =
  (if negb (truthy s) then done env d m dd
   else (next_step <- lift (dict_getitem s (steps d));;
         switch_step env d m dd error s next_step edit))
    (logged (Hook OnNext None) w).
Proof. intros Hr. unfold next, bind at 1 2, log, lift. by rewrite Hr. Qed.

Lemma next_switch (env : Env) (d : Dialog) (current_state : state_id) (m : Message)
    (dd : DialogData) (edit : bool) (error : option exn) (next_state : directive)
    (s : state_id) (step : Step) (w : World) :
  resolve d current_state next_state = Ret (inr s) ->
  truthy s = true -> dict_get s (steps d) = Some step ->
  next env d current_state m dd edit error next_state w =
  switch_step env d m dd error s step edit (logged (Hook OnNext None) w).
Proof.
  intros Hr Ht Hs. rewrite (next_resolved _ _ _ _ _ _ _ _ s) by done.
  rewrite Ht. simpl. unfold bind at 1, lift. by rewrite (dict_getitem_Some _ _ step).
Qed.

(** C1, as amended: for a registered truthy state A, a validation failure
    of A's step keeps the chat's state at A, renders A's text with the
    error passed in, and leaves the stored entry of the step's field
    unchanged. *)
Theorem validation_failure_keeps_state (env : Env) (d : Dialog) (m : Message)
    (w : World) :
  truthy (chat_state w) = true -> validation_failure_claim env d m w.
Proof.
  intros Ht step msg Hstep Hfail r w'.
  rewrite (handle_message_failure env d m w step msg) by done.
  rewrite bind_run, (next_switch _ _ _ _ _ _ _ _ (chat_state w) step) by done.
  match goal with
  | |- context [switch_step ?e ?d ?m ?dd ?err ?ns ?st ?ed ?w0] =>
      destruct (switch_step e d m dd err ns st ed w0) as [[dd'|e'] w1] eqn:E;
      apply switch_step_spec in E as (Hs & (tr & Htr & _) & Hr)
  end; simpl in *.
  - destruct Hr as (Hc & Hd & Hf). intros [= <- <-]. simpl. split_and!.
    + done.
    + eexists. rewrite Htr, <- !app_assoc. split; [reflexivity|].
      simpl. set_solver.
    + unfold stored_bag. simpl. rewrite Hf. simpl. rewrite Hs.
      rewrite lookup_insert_eq. simpl. fold (dd_data dd'). by rewrite Hd.
  - intros [= <- <-]. split_and!.
    + done.
    + eexists. rewrite Htr, <- !app_assoc. split; [reflexivity|].
      simpl. set_solver.
    + unfold stored_bag. by rewrite Hs.
Qed.

Lemma validation_failure_keeps_state_witness :
  let w' := (handle_message quiet_env dialog_ab message_bad world_a).2 in
  chat_state w' = Some "a" /\
  (exists tr, trace w' = [] ++ tr /\
     RenderText (Some "a") {[ "fa" := PyStr "old" ]}
       (Some (ValueError "not a number")) ∈ tr) /\
  stored_bag dialog_ab w' !! "fa" = Some (PyStr "old").
Proof.
  exact (validation_failure_keeps_state quiet_env dialog_ab message_bad world_a
           eq_refl (sample_step "fa" BackNotImplemented) "not a number"
           eq_refl eq_refl _ _ (surjective_pairing _)).
Defined.

(** C1, as stated, fails for a registered falsy state, the default state
    [None] or the empty string: the failure is resolved to "no next
    state", the dialog is finished, nothing is rendered and the bag is
    emptied. *)
Lemma validation_failure_claim_falsy_state :
  ~ validation_failure_claim quiet_env dialog_none message_bad world_none /\
  ~ validation_failure_claim quiet_env dialog_empty_first message_bad world_empty.
Proof.
  split; intros H.
  - pose proof (H (sample_step "f0" BackNotImplemented) "not a number"
                  eq_refl eq_refl _ _ (surjective_pairing _))
      as (_ & (tr & Htr & Hin) & Hbag).
    vm_compute in Hbag. discriminate.
  - pose proof (H (sample_step "f0" BackNotImplemented) "not a number"
                  eq_refl eq_refl _ _ (surjective_pairing _))
      as (_ & (tr & Htr & Hin) & _).
    vm_compute in Htr. subst tr.
    repeat (apply elem_of_cons in Hin as [Hin|Hin]; [discriminate|]).
    by apply elem_of_nil in Hin.
Qed.

(** In a quiet environment the handler of a failed validation returns. *)
Lemma validation_failure_returns (env : Env) (d : Dialog) (m : Message) (w : World)
    (step : Step) (msg : string) :
  quiet env -> wf_dialog d -> truthy (chat_state w) = true ->
  dict_get (chat_state w) (steps d) = Some step ->
  step_process_message step m (stored_bag d w) = Raise (ValueError msg) ->
  (handle_message env d m w).1 = Ret tt.
Proof.
  intros Hq Hwf Ht Hstep Hfail.
  rewrite (handle_message_failure env d m w step msg) by done.
  rewrite bind_run, (next_switch _ _ _ _ _ _ _ _ (chat_state w) step) by done.
  assert (chat_state w ∈ states d) as Hin.
  { rewrite (wf_states d Hwf). apply dict_get_Some. by rewrite Hstep. }
  match goal with
  | |- context [switch_step ?e ?d ?m ?dd ?err ?ns ?st ?ed ?w0] =>
      destruct (succeeds_switch_step e d m dd err ns st ed Hq Hin w0)
        as (dd' & w1 & ->)
  end.
  reflexivity.
Qed.

(** ** No step for the chat's state *)

(** C6: when the chat's recorded state has no registered step, a plain
    message and a callback that is not a navigation callback log the error
    and raise [StateBrokenError] with the state in the message, with no
    transition and nothing sent or edited; the back callback raises
    [KeyError] instead, also with no effect. *)
Theorem unregistered_state_raises (env : Env) (d : Dialog) (w : World) :
  dict_get (chat_state w) (steps d) = None ->
  (forall m, handle_message env d m w = state_broken_outcome w) /\
  (forall c, not_navigation d c -> handle_callback env d c w = state_broken_outcome w) /\
  (forall c, data c = Some (back_cd d) -> back_cd d <> done_cd d ->
     handle_callback env d c w = (Raise (KeyError (chat_state w)), w)).
Proof.
  intros Hnone. split_and!.
  - intros m. unfold handle_message, DialogData_init, get_state, bind at 1 2.
    by rewrite Hnone.
  - intros c (H1 & H2 & H3 & H4).
    unfold handle_callback, DialogData_init, get_state, bind at 1 2.
    rewrite !bool_decide_false by done. by rewrite Hnone.
  - intros c Hc Hne.
    unfold handle_callback, DialogData_init, get_state, bind at 1 2.
    rewrite bool_decide_false by congruence. rewrite bool_decide_true by done.
    unfold bind at 1, back, bind at 1, get_state, bind at 1, lift, dict_getitem.
    by rewrite Hnone.
Qed.

Lemma unregistered_state_raises_witness :
  handle_message quiet_env dialog_ab message_bad world_zzz
  = (Raise (StateBrokenError "No step found for state zzz"),
     logged (LogError (Some "zzz")) world_zzz) /\
  handle_callback quiet_env dialog_ab callback_other world_zzz
  = (Raise (StateBrokenError "No step found for state zzz"),
     logged (LogError (Some "zzz")) world_zzz) /\
  handle_callback quiet_env dialog_ab callback_back world_zzz
  = (Raise (KeyError (Some "zzz")), world_zzz).
Proof.
  destruct (unregistered_state_raises quiet_env dialog_ab world_zzz eq_refl)
    as (H1 & H2 & H3).
  split_and!.
  - apply H1.
  - apply H2. repeat split; discriminate.
  - apply H3; [reflexivity|discriminate].
Defined.

(** ** [done] *)

Lemma for_each_callbacks (env : Env) (l : list callback)
    (x : option (gmap string pyval)) (w : World) :
  (forall tr c, raises env tr (Callback c x) = None) ->
  for_each l (fun c => emit env (Callback c x)) w =
  (Ret tt, {| chat_state := chat_state w; store := store w;
              trace := trace w ++ map (fun c => Callback c x) l |}).
Proof.
  intros Hq. revert w. induction l as [|c l IH]; intros w; simpl.
  - destruct w. simpl. by rewrite app_nil_r.
  - unfold bind, emit at 1. rewrite Hq, IH. simpl. by rewrite <- app_assoc.
Qed.

(** C7: [done] with a displayed message clears its buttons (a
    [MessageNotModified] from that edit is swallowed), resets DialogData,
    then runs the on-done hook, every done-callback in registration order,
    the on-finish hook and every finished-callback in registration order;
    the on-done hook and the done-callbacks get the bag as it was before
    the reset. *)
Theorem done_order (env : Env) (d : Dialog) (m : Message) (dd : DialogData)
    (w : World) (id : Z) :
  dd_message_id dd = Some id -> id <> 0%Z ->
  (raises env (trace w) (EditMessageReplyMarkup (chat_id m) id None) = None \/
   raises env (trace w) (EditMessageReplyMarkup (chat_id m) id None)
   = Some MessageNotModified) ->
  (forall tr c x, raises env tr (Callback c x) = None) ->
  done env d m dd w =
  (Ret {| dd_field := dd_field dd;
          dd_content := {| c_message_id := None;
                           c_old_state := c_old_state (dd_content dd);
                           c_bag := ∅ |} |},
   {| chat_state := chat_state w; store := store w;
      trace := trace w ++
        [EditMessageReplyMarkup (chat_id m) id None;
         Reset (dd_field dd);
         Hook OnDone (Some (dd_data dd))] ++
        map (fun c => Callback c (Some (dd_data dd))) (done_callbacks d) ++
        [Hook OnFinish None] ++
        map (fun c => Callback c None) (finished_callbacks d) |}).
Proof.
  intros Hid Hnz Hedit Hcb.
  assert (clear_markup env m (dd_message_id dd) w =
          (Ret tt, logged (EditMessageReplyMarkup (chat_id m) id None) w)) as Hclear.
  { unfold clear_markup, truthy_id. rewrite Hid. simpl.
    rewrite (proj2 (Z.eqb_neq id 0) Hnz). simpl.
    unfold except_not_modified, emit. by destruct Hedit as [-> | ->]. }
  unfold done, _do_finish, bind at 1 2. rewrite Hclear.
  unfold dd_reset, bind at 1 2, log, ret. simpl.
  unfold bind at 1. rewrite for_each_callbacks by done.
  unfold _notify_finish, bind at 1 2, log. simpl.
  rewrite for_each_callbacks by done. simpl.
  by rewrite <- !app_assoc.
Qed.

Lemma done_order_witness :
  done quiet_env dialog_callbacks message_bad dialog_data_a world_a
  = (Ret {| dd_field := "dlg"; dd_content := empty_content |},
     {| chat_state := Some "a"; store := store world_a;
        trace := [EditMessageReplyMarkup 5 7 None;
                  Reset "dlg";
                  Hook OnDone (Some {[ "fa" := PyStr "old" ]});
                  Callback "save" (Some {[ "fa" := PyStr "old" ]});
                  Callback "mail" (Some {[ "fa" := PyStr "old" ]});
                  Hook OnFinish None;
                  Callback "stats" None] |}).
Proof.
  refine (done_order quiet_env dialog_callbacks message_bad dialog_data_a world_a 7
            _ _ _ _).
  - reflexivity.
  - lia.
  - left. reflexivity.
  - reflexivity.
Defined.

(** ** [next] with a falsy next state *)

(** C9: whenever the resolved next state is falsy, [None] or the empty
    string, [next] runs the on-next hook and then [done]; the chat's state
    is not set. *)
Theorem next_falsy_finishes (env : Env) (d : Dialog) (current_state : state_id)
    (m : Message) (dd : DialogData) (edit : bool) (error : option exn)
    (next_state : directive) (s : state_id) (w : World) :
  resolve d current_state next_state = Ret (inr s) ->
  truthy s = false ->
  next env d current_state m dd edit error next_state w
  = done env d m dd (logged (Hook OnNext None) w) /\
  chat_state (next env d current_state m dd edit error next_state w).2 = chat_state w /\
  exists tr, trace (next env d current_state m dd edit error next_state w).2
             = trace w ++ Hook OnNext None :: tr /\
             Forall (fun ev => is_send ev = false) tr.
Proof.
  intros Hr Hf. rewrite (next_resolved _ _ _ _ _ _ _ _ s), Hf by done. simpl.
  split; [done|].
  destruct (done env d m dd (logged (Hook OnNext None) w)) as [r w'] eqn:E.
  apply (emits_done (fun ev => is_send ev = false)) in E as (Hc & _ & tr & Ht & HP);
    [|done].
  simpl in *. split; [done|]. exists tr. by rewrite Ht, <- app_assoc.
Qed.

Lemma next_falsy_finishes_witness :
  next quiet_env dialog_ab (Some "a") message_bad
    {| dd_field := "dlg"; dd_content := empty_content |} true None
    (DValue (Some "")) world_a
  = done quiet_env dialog_ab message_bad
      {| dd_field := "dlg"; dd_content := empty_content |}
      (logged (Hook OnNext None) world_a) /\
  next quiet_env dialog_empty_first (Some "") message_bad
    {| dd_field := "dlg"; dd_content := empty_content |} true None
    DNotImplemented world_empty
  = done quiet_env dialog_empty_first message_bad
      {| dd_field := "dlg"; dd_content := empty_content |}
      (logged (Hook OnNext None) world_empty).
Proof.
  split.
  - apply (next_falsy_finishes quiet_env dialog_ab (Some "a") message_bad _ true None
             (DValue (Some "")) (Some "") world_a); reflexivity.
  - apply (next_falsy_finishes quiet_env dialog_empty_first (Some "") message_bad _
             true None DNotImplemented (Some "") world_empty); reflexivity.
Defined.

(** ** The back callback *)

Lemma wf_dict_get (d : Dialog) (s : state_id) :
  wf_dialog d -> s ∈ states d -> exists step, dict_get s (steps d) = Some step.
Proof.
  intros [Hs _ _] Hin. rewrite Hs in Hin. by apply dict_get_Some in Hin.
Qed.


Lemma quiet_env_quiet : quiet quiet_env.
Proof. intros tr ev. reflexivity. Qed.

(** ** The constructor *)

Lemma remove_dups_NoDup_id (l : list state_id) : NoDup l -> remove_dups l = l.
Proof.
  induction 1 as [|x l Hx _ IH]; simpl; [done|].
  case_decide; [done|]. by rewrite IH.
Qed.

Lemma remove_dups_app_dup (l1 l2 : list state_id) (x : state_id) :
  x ∈ l2 -> remove_dups (l1 ++ x :: l2) = remove_dups (l1 ++ l2).
Proof.
  intros Hx. induction l1 as [|y l1 IH]; simpl.
  - by case_decide.
  - rewrite IH. repeat case_decide; try done; exfalso.
    + match goal with H : y ∉ _ |- _ => apply H end.
      match goal with H : y ∈ _ |- _ => revert H end.
      rewrite !elem_of_app, elem_of_cons. intros [?|[->|?]]; auto.
    + match goal with H : y ∉ _ |- _ => apply H end.
      match goal with H : y ∈ _ |- _ => revert H end.
      rewrite !elem_of_app, elem_of_cons. tauto.
Qed.

Lemma first_occurrences_NoDup_id (l : list state_id) :
  NoDup l -> first_occurrences l = l.
Proof.
  intros H. unfold first_occurrences.
  rewrite remove_dups_NoDup_id by by rewrite reverse_Permutation.
  apply reverse_involutive.
Qed.

Lemma first_occurrences_dup (l1 l2 : list state_id) (x : state_id) :
  x ∈ l1 -> first_occurrences (l1 ++ x :: l2) = first_occurrences (l1 ++ l2).
Proof.
  intros Hx. unfold first_occurrences.
  rewrite !reverse_app, reverse_cons, <- app_assoc. simpl.
  rewrite remove_dups_app_dup by by apply elem_of_reverse.
  done.
Qed.

Lemma init_steps_keys (items : list (steps_key * Step)) (acc : list (state_id * Step)) :
  NoDup (map fst acc) ->
  map fst (init_steps items acc) = first_occurrences (map fst acc ++ item_keys items).
Proof.
  revert acc. induction items as [|[k step] items IH]; intros acc Hacc; simpl.
  - rewrite app_nil_r. by rewrite first_occurrences_NoDup_id.
  - rewrite IH by by apply dict_set_NoDup.
    destruct (decide (key_state k ∈ map fst acc)) as [Hin|Hin].
    + rewrite dict_set_keys_in by done. by rewrite first_occurrences_dup.
    + rewrite dict_set_keys_fresh by done. by rewrite <- app_assoc.
Qed.

Lemma dict_get_set_eq {V : Type} (k : state_id) (v : V) (d : list (state_id * V)) :
  dict_get k (dict_set k v d) = Some v.
Proof.
  induction d as [|[k' v'] d IH]; simpl.
  - by rewrite decide_True.
  - destruct (decide (k' = k)) as [->|Hne]; simpl.
    + by rewrite decide_True.
    + by rewrite decide_False.
Qed.

Lemma dict_get_set_ne {V : Type} (k k' : state_id) (v : V) (d : list (state_id * V)) :
  k <> k' -> dict_get k (dict_set k' v d) = dict_get k d.
Proof.
  intros Hne. induction d as [|[k2 v2] d IH]; simpl.
  - by rewrite decide_False.
  - destruct (decide (k2 = k')) as [->|Hne']; simpl.
    + by rewrite !decide_False.
    + by rewrite IH.
Qed.

Lemma init_steps_app (l1 l2 : list (steps_key * Step)) (acc : list (state_id * Step)) :
  init_steps (l1 ++ l2) acc = init_steps l2 (init_steps l1 acc).
Proof.
  revert acc. induction l1 as [|[k step] l1 IH]; intros acc; simpl; [done|].
  apply IH.
Qed.

Lemma init_steps_get_other (items : list (steps_key * Step))
    (acc : list (state_id * Step)) (s : state_id) :
  Forall (fun i => key_state i.1 <> s) items ->
  dict_get s (init_steps items acc) = dict_get s acc.
Proof.
  intros H. revert acc. induction H as [|[k step] items Hk _ IH]; intros acc; simpl.
  - done.
  - rewrite IH. apply dict_get_set_ne. simpl in Hk. congruence.
Qed.

(** X1: the states of a constructed dialog are the keys of the argument
    in the order of their first occurrence, each once, and a state has a
    step exactly when it is in that list. *)
Theorem Dialog_init_states (items : list (steps_key * Step))
    (cc cb cd cs : bool) (prefix field : string) (texts0 : option DialogTexts) :
  let d := Dialog_init items cc cb cd cs prefix field texts0 in
  states d = first_occurrences (item_keys items) /\
  NoDup (states d) /\
  (forall s, is_Some (dict_get s (steps d)) <-> s ∈ states d).
Proof.
  simpl. split_and!.
  - by rewrite init_steps_keys by constructor.
  - apply init_steps_NoDup. constructor.
  - intros s. apply dict_get_Some.
Qed.

(** X2: when several keys of the argument map to the same state, the
    step given last is the one registered for it. *)
Theorem Dialog_init_last_step_wins (items1 items2 : list (steps_key * Step))
    (k : steps_key) (step : Step)
    (cc cb cd cs : bool) (prefix field : string) (texts0 : option DialogTexts) :
  Forall (fun i => key_state i.1 <> key_state k) items2 ->
  dict_get (key_state k)
    (steps (Dialog_init (items1 ++ (k, step) :: items2) cc cb cd cs prefix field texts0))
  = Some step.
Proof.
  intros H. simpl. rewrite init_steps_app. simpl.
  rewrite init_steps_get_other by done. apply dict_get_set_eq.
Qed.

Lemma Dialog_init_last_step_wins_witness :
  states dialog_replaced = [Some "a"; Some "b"] /\
  dict_get (Some "a") (steps dialog_replaced)
  = Some (sample_step "new" BackNotImplemented).
Proof.
  split; [reflexivity|].
  apply (Dialog_init_last_step_wins
           [(KState {| state := Some "a" |}, sample_step "old" BackNotImplemented);
            (KState {| state := Some "b" |}, sample_step "fb" BackNotImplemented)]
           [] (KState {| state := Some "a" |})).
  constructor.
Defined.

Lemma append_inj_suffix (p a b : string) : a <> b -> p +:+ a <> p +:+ b.
Proof. intros Hne H. by apply append_inj_r in H. Qed.

(** Whatever the prefix, the four navigation identifiers of a
    constructed dialog are pairwise different. *)
Theorem Dialog_init_cds_distinct (items : list (steps_key * Step))
    (cc cb cd cs : bool) (prefix field : string) (texts0 : option DialogTexts) :
  let d := Dialog_init items cc cb cd cs prefix field texts0 in
  NoDup [cancel_cd d; done_cd d; back_cd d; skip_cd d].
Proof.
  simpl. repeat (apply NoDup_cons; split);
    rewrite ?elem_of_cons, ?elem_of_nil; try apply NoDup_nil_2;
    intros H; repeat destruct H as [H|H]; try done;
    by apply append_inj_r in H.
Qed.

(** ** [get_kbd] *)

Lemma wf_cds_distinct (d : Dialog) :
  wf_dialog d -> NoDup [cancel_cd d; done_cd d; back_cd d; skip_cd d].
Proof.
  intros [_ _ (p & -> & -> & -> & ->)].
  repeat (apply NoDup_cons; split);
    rewrite ?elem_of_cons, ?elem_of_nil; try apply NoDup_nil_2;
    intros H; repeat destruct H as [H|H]; try done;
    by apply append_inj_r in H.
Qed.

Lemma offers_nil (cd : string) : ~ offers [] cd.
Proof. intros (b & Hb & _). by apply elem_of_nil in Hb. Qed.

Lemma add_row_app (kbd : Markup) (row : list InlineKeyboardButton) :
  add_row kbd row = kbd ++ add_row [] row.
Proof. destruct row; simpl; [by rewrite app_nil_r|done]. Qed.

Lemma concat_add_row (kbd : Markup) (row : list InlineKeyboardButton) :
  concat (add_row kbd row) = concat kbd ++ row.
Proof.
  destruct row; simpl; [by rewrite app_nil_r|].
  rewrite concat_app. simpl. by rewrite app_nil_r.
Qed.

Lemma add_row_rows (row1 row2 : list InlineKeyboardButton) :
  length (add_row (add_row [] row1) row2) <= 2 /\
  Forall (fun row => row <> []) (add_row (add_row [] row1) row2).
Proof.
  destruct row1, row2; simpl; split; try lia; repeat constructor; done.
Qed.

Lemma offers_nav (rows : Markup) (cd : string)
    (shown : list (bool * string * string)) :
  concat rows
  = concat (map (fun '(b, caption, cd') =>
                   if b : bool then [nav_button caption cd'] else []) shown) ->
  offers rows cd <-> exists caption, (true, caption, cd) ∈ shown.
Proof.
  intros Hrows. unfold offers. rewrite Hrows. clear Hrows. split.
  - intros (b & Hb & Hcd).
    apply list_elem_of_In, in_concat in Hb as (l & Hl & Hb).
    apply list_elem_of_In, list_elem_of_fmap in Hl as ([[on caption] cd'] & -> & Hin).
    destruct on; [|done]. destruct Hb as [<-|[]]. simpl in Hcd.
    injection Hcd as ->. eauto.
  - intros (caption & Hin). exists (nav_button caption cd). split; [|done].
    apply list_elem_of_In, in_concat. exists [nav_button caption cd].
    split; [|by left].
    apply list_elem_of_In, list_elem_of_fmap. by exists (true, caption, cd).
Qed.

Lemma wf_cds_ne (d : Dialog) :
  wf_dialog d ->
  cancel_cd d <> done_cd d /\ cancel_cd d <> back_cd d /\
  cancel_cd d <> skip_cd d /\ done_cd d <> back_cd d /\
  done_cd d <> skip_cd d /\ back_cd d <> skip_cd d.
Proof.
  intros [_ _ (p & -> & -> & -> & ->)].
  split_and!; by apply append_inj_suffix.
Qed.

Lemma shown_lookup (shown : list (bool * string * string)) (b : bool)
    (caption cd : string) :
  NoDup (map snd shown) -> (b, caption, cd) ∈ shown ->
  (exists c, (true, c, cd) ∈ shown) <-> b = true.
Proof.
  intros Hnd Hin. split; [|intros ->; eauto].
  intros (c & Hc). revert Hnd Hin Hc.
  induction shown as [|[[b' c'] cd'] shown IH]; [by intros _ []%elem_of_nil|].
  simpl. rewrite NoDup_cons, !elem_of_cons. intros [Hcd Hnd] [H1|H1] [H2|H2].
  - congruence.
  - exfalso. apply Hcd. injection H1 as -> -> ->.
    apply list_elem_of_In, in_map_iff. exists (true, c, cd').
    split; [done|by apply list_elem_of_In].
  - exfalso. apply Hcd. injection H2 as <- <- <-.
    apply list_elem_of_In, in_map_iff. exists (b, caption, cd).
    split; [done|by apply list_elem_of_In].
  - by apply IH.
Qed.

(** X3: for a registered state, [get_kbd] returns the step's own rows
    followed by at most two non-empty rows; the back button is offered
    exactly when the state is not the first one and both the dialog and
    the step allow it, and the skip, cancel and done buttons exactly when
    both the dialog and the step allow them. *)
Theorem get_kbd_navigation (d : Dialog) (st : state_id) (step : Step)
    (bag : gmap string pyval) (w : World) :
  wf_dialog d -> st ∈ states d ->
  exists extra,
    get_kbd d st step bag w
    = (Ret (default [] (step_render_kbd step bag) ++ extra),
       logged (RenderKbd st bag) w) /\
    length extra <= 2 /\
    Forall (fun row => row <> []) extra /\
    (offers extra (back_cd d) <->
       head (states d) <> Some st /\ _can_back d = true /\ step_can_back step = true) /\
    (offers extra (skip_cd d) <-> _can_skip d = true /\ step_can_skip step = true) /\
    (offers extra (cancel_cd d) <-> _can_cancel d = true /\ step_can_cancel step = true) /\
    (offers extra (done_cd d) <-> _can_done d = true /\ step_can_done step = true).
Proof.
  intros Hwf [i Hi]%index_in.
  destruct (wf_cds_ne d Hwf) as (N1 & N2 & N3 & N4 & N5 & N6).
  set (back_ok := match i with 0 => false | S _ => _can_back d && step_can_back step end).
  assert (can_back d st (Some step) = Ret back_ok) as Hback
    by (rewrite can_back_Some, Hi; by destruct i).
  assert (back_ok = true <->
          head (states d) <> Some st /\ _can_back d = true /\ step_can_back step = true)
    as Hback_ok.
  { unfold back_ok. destruct i.
    - apply index_head in Hi. split; [done|]. by intros [? _].
    - rewrite andb_true_iff. split; [|tauto]. intros ?. split; [|done].
      intros Hh%index_head. congruence. }
  set (shown := [(back_ok, texts_back (texts d), back_cd d);
                 (can_skip d (Some step), texts_skip (texts d), skip_cd d);
                 (can_cancel d (Some step), texts_cancel (texts d), cancel_cd d);
                 (can_done d (Some step), texts_done (texts d), done_cd d)]).
  assert (NoDup (map snd shown)) as Hshown.
  { simpl. rewrite !NoDup_cons, !elem_of_cons, !elem_of_nil.
    split_and!; try apply NoDup_nil_2; intros H;
      repeat destruct H as [H|H]; congruence. }
  set (extra := add_row (add_row []
                  ((if back_ok then [nav_button (texts_back (texts d)) (back_cd d)] else []) ++
                   (if can_skip d (Some step)
                    then [nav_button (texts_skip (texts d)) (skip_cd d)] else [])))
                  ((if can_cancel d (Some step)
                    then [nav_button (texts_cancel (texts d)) (cancel_cd d)] else []) ++
                   (if can_done d (Some step)
                    then [nav_button (texts_done (texts d)) (done_cd d)] else []))).
  assert (forall cd, offers extra cd <-> exists c, (true, c, cd) ∈ shown) as Hoffers.
  { intros cd. apply offers_nav. unfold extra. rewrite !concat_add_row. simpl.
    by rewrite !app_nil_r, <- !app_assoc. }
  exists extra. split_and!.
  - unfold get_kbd, bind at 1 2, log, lift. rewrite Hback. unfold ret.
    rewrite add_row_app, (add_row_app (default [] _)), <- app_assoc.
    by rewrite <- add_row_app.
  - apply add_row_rows.
  - apply add_row_rows.
  - rewrite Hoffers, <- Hback_ok.
    apply (shown_lookup shown _ (texts_back (texts d))); [done|].
    unfold shown. rewrite !elem_of_cons. tauto.
  - rewrite Hoffers. unfold can_skip in *. rewrite <- andb_true_iff.
    apply (shown_lookup shown _ (texts_skip (texts d))); [done|].
    unfold shown. rewrite !elem_of_cons. tauto.
  - rewrite Hoffers. unfold can_cancel in *. rewrite <- andb_true_iff.
    apply (shown_lookup shown _ (texts_cancel (texts d))); [done|].
    unfold shown. rewrite !elem_of_cons. tauto.
  - rewrite Hoffers. unfold can_done in *. rewrite <- andb_true_iff.
    apply (shown_lookup shown _ (texts_done (texts d))); [done|].
    unfold shown. rewrite !elem_of_cons. tauto.
Qed.

Lemma get_kbd_navigation_witness :
  exists extra,
    get_kbd dialog_ab (Some "b") (sample_step "fb" BackNotImplemented) ∅ world_b
    = (Ret ([] ++ extra), logged (RenderKbd (Some "b") ∅) world_b) /\
    length extra <= 2 /\
    (offers extra "[back]" <->
       Some (Some "a") <> Some (Some "b") /\ true = true /\ true = true).
Proof.
  destruct (get_kbd_navigation dialog_ab (Some "b") (sample_step "fb" BackNotImplemented)
              ∅ world_b) as (extra & H1 & H2 & _ & H3 & _).
  - apply Dialog_init_wf.
  - compute_done.
  - exists extra. split_and!; [exact H1|exact H2|exact H3].
Defined.

(** ** [_do_finish], [cancel] and failing callbacks *)

Lemma clear_markup_displayed (env : Env) (m : Message) (id : Z) (w : World) :
  id <> 0%Z ->
  raises env (trace w) (EditMessageReplyMarkup (chat_id m) id None) = None \/
  raises env (trace w) (EditMessageReplyMarkup (chat_id m) id None)
  = Some MessageNotModified ->
  clear_markup env m (Some id) w
  = (Ret tt, logged (EditMessageReplyMarkup (chat_id m) id None) w).
Proof.
  intros Hnz Hedit. unfold clear_markup, truthy_id.
  rewrite (proj2 (Z.eqb_neq id 0) Hnz). simpl.
  unfold except_not_modified, emit. by destruct Hedit as [-> | ->].
Qed.

Lemma clear_markup_none (env : Env) (m : Message) (id : option Z) (w : World) :
  truthy_id id = false -> clear_markup env m id w = (Ret tt, w).
Proof. unfold clear_markup. by intros ->. Qed.

(** X4: [cancel] with a displayed message clears its buttons, resets
    DialogData, then runs the on-cancel hook, every cancel-callback in
    registration order, the on-finish hook and every finished-callback in
    registration order; none of them is given the data bag. *)
Theorem cancel_order (env : Env) (d : Dialog) (m : Message) (dd : DialogData)
    (w : World) (id : Z) :
  dd_message_id dd = Some id -> id <> 0%Z ->
  (raises env (trace w) (EditMessageReplyMarkup (chat_id m) id None) = None \/
   raises env (trace w) (EditMessageReplyMarkup (chat_id m) id None)
   = Some MessageNotModified) ->
  (forall tr c x, raises env tr (Callback c x) = None) ->
  cancel env d m dd w =
  (Ret (reset_data dd),
   {| chat_state := chat_state w; store := store w;
      trace := trace w ++
        [EditMessageReplyMarkup (chat_id m) id None;
         Reset (dd_field dd);
         Hook OnCancel None] ++
        map (fun c => Callback c None) (cancel_callbacks d) ++
        [Hook OnFinish None] ++
        map (fun c => Callback c None) (finished_callbacks d) |}).
Proof.
  intros Hid Hnz Hedit Hcb.
  unfold cancel, _do_finish, bind at 1 2. rewrite Hid, clear_markup_displayed by done.
  unfold dd_reset, bind at 1 2, log, ret. simpl.
  unfold bind at 1. rewrite for_each_callbacks by done.
  unfold _notify_finish, bind at 1 2, log. simpl.
  rewrite for_each_callbacks by done. simpl.
  by rewrite <- !app_assoc.
Qed.

Lemma cancel_order_witness :
  cancel quiet_env dialog_cancel_callbacks message_bad dialog_data_a world_a
  = (Ret {| dd_field := "dlg"; dd_content := empty_content |},
     {| chat_state := Some "a"; store := store world_a;
        trace := [EditMessageReplyMarkup 5 7 None; Reset "dlg";
                  Hook OnCancel None; Callback "undo" None;
                  Hook OnFinish None; Callback "stats" None] |}).
Proof.
  refine (cancel_order quiet_env dialog_cancel_callbacks message_bad dialog_data_a
            world_a 7 _ _ _ _).
  - reflexivity.
  - lia.
  - left. reflexivity.
  - reflexivity.
Defined.

(** X5: [_do_finish] makes no call to the messaging client when no
    message is displayed; and when clearing the buttons fails with
    anything but [MessageNotModified], the failure propagates and
    DialogData is not reset. *)
Theorem do_finish_edges (env : Env) (m : Message) (dd : DialogData) (w : World) :
  (truthy_id (dd_message_id dd) = false ->
   _do_finish env m dd w = (Ret (reset_data dd), logged (Reset (dd_field dd)) w)) /\
  (forall id e, dd_message_id dd = Some id -> id <> 0%Z ->
     raises env (trace w) (EditMessageReplyMarkup (chat_id m) id None) = Some e ->
     e <> MessageNotModified ->
     _do_finish env m dd w
     = (Raise e, logged (EditMessageReplyMarkup (chat_id m) id None) w)).
Proof.
  split.
  - intros Hid. unfold _do_finish, bind. by rewrite clear_markup_none.
  - intros id e Hid Hnz Hr He. unfold _do_finish, bind, clear_markup, truthy_id.
    rewrite Hid, (proj2 (Z.eqb_neq id 0) Hnz). simpl.
    unfold except_not_modified, emit. rewrite Hr. by destruct e.
Qed.

Lemma do_finish_edges_witness :
  _do_finish quiet_env message_bad dialog_data_fresh world_a
  = (Ret dialog_data_fresh, logged (Reset "dlg") world_a) /\
  _do_finish offline_env message_bad dialog_data_a world_a
  = (Raise (NetworkError "unreachable"),
     logged (EditMessageReplyMarkup 5 7 None) world_a).
Proof.
  split.
  - apply (proj1 (do_finish_edges quiet_env message_bad dialog_data_fresh world_a)).
    reflexivity.
  - apply (proj2 (do_finish_edges offline_env message_bad dialog_data_a world_a) 7%Z);
      [reflexivity|lia|reflexivity|discriminate].
Defined.

Lemma fails_bind_l {A B : Type} (m : M A) (k : A -> M B) :
  fails m -> fails (bind m k).
Proof. intros Hm w. rewrite bind_run. destruct (Hm w) as (e & w' & ->). eauto. Qed.

Lemma fails_bind_r {A B : Type} (m : M A) (k : A -> M B) :
  (forall a, fails (k a)) -> fails (bind m k).
Proof.
  intros Hk w. rewrite bind_run. destruct (m w) as [[a|e] w']; [apply Hk|eauto].
Qed.

Lemma fails_for_each {A : Type} (l : list A) (body : A -> M unit) (a : A) :
  a ∈ l -> fails (body a) -> fails (for_each l body).
Proof.
  intros Hin Ha. induction l as [|b l IH]; [by apply elem_of_nil in Hin|].
  simpl. apply elem_of_cons in Hin as [<-|Hin].
  - by apply fails_bind_l.
  - apply fails_bind_r. intros _. by apply IH.
Qed.

Lemma emits_bind_fails (P : event -> Prop) {A B : Type} (m : M A) (k : A -> M B) :
  emits P m -> fails m -> emits P (bind m k).
Proof.
  intros Hm Hf w r w'. rewrite bind_run.
  destruct (Hf w) as (e & w1 & E). rewrite E. intros [= <- <-]. by apply Hm in E.
Qed.

(** X6: when a registered done-callback raises, [done] raises, and the
    finish notification is skipped: neither the on-finish hook nor any
    finished-callback is called. *)
Theorem done_callback_failure (env : Env) (d : Dialog) (m : Message)
    (dd : DialogData) (w : World) (c : callback) (e : exn)
    (r : result DialogData) (w' : World) :
  c ∈ done_callbacks d ->
  (forall tr x, raises env tr (Callback c x) = Some e) ->
  done env d m dd w = (r, w') ->
  (exists e', r = Raise e') /\
  exists tr, trace w' = trace w ++ tr /\
             Forall (fun ev => is_finish_notice ev = false) tr.
Proof.
  intros Hc He E.
  assert (fails (for_each (done_callbacks d)
                   (fun c => emit env (Callback c (Some (dd_data dd)))))) as Hfail.
  { apply (fails_for_each _ _ c); [done|]. intros w0. unfold emit. rewrite He. eauto. }
  split.
  - assert (fails (done env d m dd)) as Hdone.
    { unfold done. apply fails_bind_r. intros dd'. apply fails_bind_r. intros _.
      by apply fails_bind_l. }
    destruct (Hdone w) as (e' & w1 & E'). rewrite E' in E. injection E as <- <-. eauto.
  - assert (emits (fun ev => is_finish_notice ev = false) (done env d m dd)) as Hem.
    { unfold done, _do_finish, dd_reset. emits_step.
      - emits. by apply emits_clear_markup.
      - emits_step; [by emits|].
        apply emits_bind_fails; [by emits|done]. }
    apply Hem in E as (_ & _ & tr & Ht & HP). eauto.
Qed.

Lemma done_callback_failure_witness :
  (exists e', (done mail_fails_env dialog_callbacks message_bad dialog_data_a world_a).1
              = Raise e') /\
  exists tr, trace (done mail_fails_env dialog_callbacks message_bad dialog_data_a
                      world_a).2 = trace world_a ++ tr /\
             Forall (fun ev => is_finish_notice ev = false) tr.
Proof.
  apply (done_callback_failure mail_fails_env dialog_callbacks message_bad
           dialog_data_a world_a "mail" (NetworkError "smtp")).
  - compute_done.
  - reflexivity.
  - apply surjective_pairing.
Defined.

(** ** [switch_step] *)

Lemma get_kbd_run (d : Dialog) (st : state_id) (step : Step) (bag : gmap string pyval) :
  st ∈ states d ->
  exists kbd, forall w, get_kbd d st step bag w = (Ret kbd, logged (RenderKbd st bag) w).
Proof.
  intros [i Hi]%index_in. unfold get_kbd, bind, log, lift, ret.
  rewrite can_back_Some, Hi. destruct i; eauto.
Qed.

Lemma emit_quiet (env : Env) (ev : event) (w : World) :
  quiet env -> emit env ev w = (Ret tt, logged ev w).
Proof. intros Hq. unfold emit. by rewrite Hq. Qed.

(** [switch_step] never writes the store and never changes the bag;
    it sets the chat's state to [next_state] when it returns and leaves
    the state alone when it raises. *)
Theorem switch_step_effects (env : Env) (d : Dialog) (m : Message) (dd : DialogData)
    (error : option exn) (next_state : state_id) (next_step : Step) (edit : bool)
    (w : World) :
  store (switch_step env d m dd error next_state next_step edit w).2 = store w /\
  match (switch_step env d m dd error next_state next_step edit w).1 with
  | Ret dd' =>
      chat_state (switch_step env d m dd error next_state next_step edit w).2
      = next_state /\ dd_data dd' = dd_data dd
  | Raise _ =>
      chat_state (switch_step env d m dd error next_state next_step edit w).2
      = chat_state w
  end.
Proof.
  destruct (switch_step env d m dd error next_state next_step edit w) as [r w'] eqn:E.
  apply switch_step_spec in E as (Hs & _ & Hr). simpl. split; [done|].
  destruct r; [|done]. by destruct Hr as (? & ? & _).
Qed.

(** X7: with a displayed message and [edit] set, in an environment where
    no call raises, [switch_step] renders the text, edits the message's
    text unless it equals the text of the message at hand, edits the
    buttons and sets the state; nothing is sent and DialogData is
    unchanged. *)
Theorem switch_step_edit (env : Env) (d : Dialog) (m : Message) (dd : DialogData)
    (error : option exn) (next_state : state_id) (next_step : Step)
    (w : World) (id : Z) :
  quiet env -> next_state ∈ states d ->
  dd_message_id dd = Some id -> id <> 0%Z ->
  let new_text := step_render_text next_step (dd_data dd) error in
  exists kbd,
    switch_step env d m dd error next_state next_step true w =
    (Ret dd,
     {| chat_state := next_state; store := store w;
        trace := trace w ++
          [RenderText next_state (dd_data dd) error] ++
          (if bool_decide (text m = Some new_text) then []
           else [EditMessageText (chat_id m) id new_text]) ++
          [RenderKbd next_state (dd_data dd);
           EditMessageReplyMarkup (chat_id m) id (Some kbd);
           SetState next_state] |}).
Proof.
  intros Hq Hin Hid Hnz new_text.
  destruct (get_kbd_run d next_state next_step (dd_data dd) Hin) as (kbd & Hkbd).
  exists kbd.
  unfold switch_step, edit_or_send, truthy_id. rewrite Hid.
  rewrite (proj2 (Z.eqb_neq id 0) Hnz). simpl.
  fold new_text. unfold bind, log, except_not_modified, set_state, ret.
  destruct (bool_decide (text m = Some new_text)).
  - rewrite Hkbd, emit_quiet by done. simpl. by rewrite <- !app_assoc.
  - rewrite emit_quiet by done. rewrite Hkbd, emit_quiet by done. simpl.
    by rewrite <- !app_assoc.
Qed.

Lemma switch_step_edit_witness :
  exists kbd,
    switch_step quiet_env dialog_ab message_shown_a dialog_data_a None (Some "a")
      (sample_step "fa" BackNotImplemented) true world_b =
    (Ret dialog_data_a,
     {| chat_state := Some "a"; store := store world_b;
        trace := [RenderText (Some "a") {[ "fa" := PyStr "old" ]} None;
                  RenderKbd (Some "a") {[ "fa" := PyStr "old" ]};
                  EditMessageReplyMarkup 5 7 (Some kbd);
                  SetState (Some "a")] |}).
Proof.
  refine (switch_step_edit quiet_env dialog_ab message_shown_a dialog_data_a None
            (Some "a") (sample_step "fa" BackNotImplemented) world_b 7 _ _ _ _).
  - apply quiet_env_quiet.
  - compute_done.
  - reflexivity.
  - lia.
Defined.


Lemma switch_step_send_kbd (env : Env) (d : Dialog) (m : Message) (dd : DialogData)
    (error : option exn) (next_state : state_id) (next_step : Step) (edit : bool)
    (w : World) (kbd : Markup) :
  quiet env ->
  (forall w0, get_kbd d next_state next_step (dd_data dd) w0
              = (Ret kbd, logged (RenderKbd next_state (dd_data dd)) w0)) ->
  edit && truthy_id (dd_message_id dd) = false ->
  let new_text := step_render_text next_step (dd_data dd) error in
  let before :=
    trace w ++
    [RenderText next_state (dd_data dd) error] ++
    (if truthy_id (dd_message_id dd)
     then [EditMessageReplyMarkup (chat_id m) (default 0%Z (dd_message_id dd)) None]
     else []) ++
    [RenderKbd next_state (dd_data dd)] in
  switch_step env d m dd error next_state next_step edit w =
  (Ret (dd_set_message_id (new_message_id env before) dd),
   {| chat_state := next_state; store := store w;
      trace := before ++ [Answer (chat_id m) new_text kbd; SetState next_state] |}).
Proof.
  intros Hq Hkbd Hedit new_text before. subst before.
  unfold switch_step, edit_or_send. rewrite Hedit.
  fold new_text. unfold clear_markup, bind, log, except_not_modified, set_state, ret, answer.
  destruct (truthy_id (dd_message_id dd)).
  - rewrite emit_quiet by done. rewrite Hkbd, emit_quiet by done. simpl.
    by rewrite <- !app_assoc.
  - rewrite Hkbd, emit_quiet by done. simpl. by rewrite <- !app_assoc.
Qed.



(** X9: on the edit path a [MessageNotModified] from editing the buttons
    is swallowed and the state is set, but the same failure from editing
    the text is not caught: [switch_step] raises it and the chat's state
    is not set. *)
Theorem switch_step_not_modified (env : Env) (d : Dialog) (m : Message)
    (dd : DialogData) (error : option exn) (next_state : state_id)
    (next_step : Step) (w : World) (id : Z) :
  next_state ∈ states d ->
  dd_message_id dd = Some id -> id <> 0%Z ->
  (forall tr ev, raises env tr ev =
     match ev with
     | EditMessageText _ _ _ | EditMessageReplyMarkup _ _ _ => Some MessageNotModified
     | _ => None
     end) ->
  let new_text := step_render_text next_step (dd_data dd) error in
  let r := switch_step env d m dd error next_state next_step true w in
  if bool_decide (text m = Some new_text)
  then r.1 = Ret dd /\ chat_state r.2 = next_state
  else r.1 = Raise MessageNotModified /\ chat_state r.2 = chat_state w /\
       trace r.2 = trace w ++ [RenderText next_state (dd_data dd) error;
                               EditMessageText (chat_id m) id new_text].
Proof.
  intros Hin Hid Hnz Henv new_text r.
  destruct (get_kbd_run d next_state next_step (dd_data dd) Hin) as (kbd & Hkbd).
  destruct (bool_decide (text m = Some new_text)) eqn:Htext.
  - assert (r = (Ret dd,
                 {| chat_state := next_state; store := store w;
                    trace := ((trace w ++ [RenderText next_state (dd_data dd) error]) ++
                              [RenderKbd next_state (dd_data dd)]) ++
                             [EditMessageReplyMarkup (chat_id m) id (Some kbd)] ++
                             [SetState next_state] |})) as ->; [|done].
    subst r. unfold switch_step, edit_or_send, truthy_id. rewrite Hid.
    rewrite (proj2 (Z.eqb_neq id 0) Hnz). simpl. fold new_text. rewrite Htext.
    unfold bind, log, except_not_modified, set_state, ret.
    rewrite Hkbd. unfold emit. rewrite Henv. simpl. by rewrite <- !app_assoc.
  - assert (r = (Raise MessageNotModified,
                 {| chat_state := chat_state w; store := store w;
                    trace := (trace w ++ [RenderText next_state (dd_data dd) error]) ++
                             [EditMessageText (chat_id m) id new_text] |})) as ->.
    { subst r. unfold switch_step, edit_or_send, truthy_id. rewrite Hid.
      rewrite (proj2 (Z.eqb_neq id 0) Hnz). simpl. fold new_text. rewrite Htext.
      unfold bind, log, except_not_modified, set_state, ret.
      unfold emit. by rewrite Henv. }
    simpl. split_and!; [done..|]. by rewrite <- app_assoc.
Qed.

Lemma switch_step_not_modified_witness :
  (switch_step unchanged_env dialog_ab message_bad dialog_data_a None (Some "a")
     (sample_step "fa" BackNotImplemented) true world_b).1
  = Raise MessageNotModified /\
  chat_state (switch_step unchanged_env dialog_ab message_bad dialog_data_a None
                (Some "a") (sample_step "fa" BackNotImplemented) true world_b).2
  = Some "b" /\
  trace (switch_step unchanged_env dialog_ab message_bad dialog_data_a None
           (Some "a") (sample_step "fa" BackNotImplemented) true world_b).2
  = [RenderText (Some "a") {[ "fa" := PyStr "old" ]} None;
     EditMessageText 5 7 "Enter fa"].
Proof.
  refine (switch_step_not_modified unchanged_env dialog_ab message_bad dialog_data_a
            None (Some "a") (sample_step "fa" BackNotImplemented) world_b 7 _ _ _ _).
  - compute_done.
  - reflexivity.
  - lia.
  - intros tr ev. reflexivity.
Defined.

(** ** The handlers *)

Lemma handle_message_processed (env : Env) (d : Dialog) (m : Message) (w : World)
    (step : Step) :
  dict_get (chat_state w) (steps d) = Some step ->
  handle_message env d m w =
  match step_process_message step m (stored_bag d w) with
  | Ret (value, next_state) =>
      (dd <- next env d (chat_state w) m
               (dd_setitem (step_field step) value (loaded d w))
               (same_state next_state (chat_state w)) None next_state;;
       dd_commit dd) (logged (ProcessMessage (chat_state w) m) w)
  | Raise (ValueError msg) =>
      (dd <- next env d (chat_state w) m (loaded d w) true (Some (ValueError msg))
               (DValue (chat_state w));;
       dd_commit dd) (logged (ProcessMessage (chat_state w) m) w)
  | Raise e => (Raise e, logged (ProcessMessage (chat_state w) m) w)
  end.
Proof.
  intros Hstep.
  assert (same_state (DValue (chat_state w)) (chat_state w) = true) as Hsame
    by (unfold same_state; by rewrite bool_decide_true).
  unfold handle_message, DialogData_init, get_state, bind at 1 2. rewrite Hstep.
  unfold bind at 1, log, dd_data. simpl. fold (stored_bag d w). fold (loaded d w).
  destruct (step_process_message step m (stored_bag d w)) as [[value dir]|e].
  - reflexivity.
  - unfold bind at 1. destruct e; try reflexivity.
    unfold ret. by rewrite Hsame.
Qed.

Lemma handle_callback_processed (env : Env) (d : Dialog) (c : CallbackQuery)
    (w : World) (step : Step) :
  not_navigation d c ->
  dict_get (chat_state w) (steps d) = Some step ->
  handle_callback env d c w =
  match step_process_callback step c (stored_bag d w) with
  | Ret (value, next_state) =>
      (dd <- next env d (chat_state w) (message c)
               (dd_setitem (step_field step) value (loaded d w))
               true None next_state;;
       emit env AnswerCallback;;
       dd_commit dd) (logged (ProcessCallback (chat_state w) c) w)
  | Raise (ValueError msg) =>
      (dd <- next env d (chat_state w) (message c) (loaded d w) true
               (Some (ValueError msg)) (DValue (chat_state w));;
       emit env AnswerCallback;;
       dd_commit dd) (logged (ProcessCallback (chat_state w) c) w)
  | Raise e => (Raise e, logged (ProcessCallback (chat_state w) c) w)
  end.
Proof.
  intros (H1 & H2 & H3 & H4) Hstep.
  unfold handle_callback, DialogData_init, get_state, bind at 1 2.
  rewrite !bool_decide_false by done. rewrite Hstep.
  unfold bind at 1, log, dd_data. simpl. fold (stored_bag d w). fold (loaded d w).
  destruct (step_process_callback step c (stored_bag d w)) as [[value dir]|e].
  - reflexivity.
  - unfold bind at 1. destruct e; reflexivity.
Qed.

(** X10: a message the step accepts, with a next state that is a
    registered truthy state other than a plain repetition of the current
    one, in an environment where no call raises: the handler returns
    after it has called the step, run the on-next hook, rendered the next
    step's text against the bag with the new value, cleared the buttons
    of the displayed message if there is one, sent one new message with
    that text and the next step's keyboard, set the chat's state and
    committed; the value is stored under the step's field and the
    identifier returned for the sent message is the stored one. *)
Theorem handle_message_advances (env : Env) (d : Dialog) (m : Message) (w : World)
    (step next : Step) (value : pyval) (next_state : directive) (s : state_id) :
  quiet env -> wf_dialog d ->
  dict_get (chat_state w) (steps d) = Some step ->
  step_process_message step m (stored_bag d w) = Ret (value, next_state) ->
  resolve d (chat_state w) next_state = Ret (inr s) ->
  truthy s = true -> dict_get s (steps d) = Some next ->
  same_state next_state (chat_state w) = false ->
  let bag := <[step_field step := value]> (stored_bag d w) in
  let before :=
    trace w ++
    [ProcessMessage (chat_state w) m; Hook OnNext None; RenderText s bag None] ++
    (if truthy_id (stored_message_id d w)
     then [EditMessageReplyMarkup (chat_id m) (default 0%Z (stored_message_id d w)) None]
     else []) ++
    [RenderKbd s bag] in
  exists kbd w',
    (forall w0, get_kbd d s next bag w0 = (Ret kbd, logged (RenderKbd s bag) w0)) /\
    handle_message env d m w = (Ret tt, w') /\
    chat_state w' = s /\
    stored_bag d w' = bag /\
    stored_message_id d w' = Some (new_message_id env before) /\
    trace w' = before ++ [Answer (chat_id m) (step_render_text next bag None) kbd;
                          SetState s;
                          Commit (dialog_field d)].
Proof.
  intros Hq Hwf Hstep Hproc Hres Ht Hnext Hsame bag before.
  assert (s ∈ states d) as Hin.
  { rewrite (wf_states d Hwf). apply dict_get_Some. by eexists. }
  destruct (get_kbd_run d s next bag Hin) as (kbd & Hkbd).
  exists kbd. eexists. split; [exact Hkbd|].
  rewrite (handle_message_processed env d m w step), Hproc, Hsame by done.
  rewrite bind_run, (next_switch _ _ _ _ _ _ _ _ s next) by done.
  rewrite (switch_step_send_kbd env d m (dd_setitem (step_field step) value (loaded d w))
             None s next false _ kbd Hq Hkbd eq_refl).
  split; [reflexivity|]. simpl. split_and!.
  - done.
  - unfold stored_bag. simpl. by rewrite lookup_insert_eq.
  - unfold stored_message_id. simpl. rewrite lookup_insert_eq. simpl.
    do 2 f_equal. subst before. unfold stored_message_id, loaded, dd_message_id. simpl.
    by rewrite <- !app_assoc.
  - subst before. unfold stored_message_id, loaded, dd_message_id. simpl.
    by rewrite <- !app_assoc.
Qed.

Lemma handle_message_advances_witness :
  exists kbd w',
    (forall w0, get_kbd dialog_steps (Some "b") (jump_step "fb" DNotImplemented)
                  (<[ "fa" := PyStr "hi" ]> (stored_bag dialog_steps world_a)) w0
                = (Ret kbd,
                   logged (RenderKbd (Some "b")
                             (<[ "fa" := PyStr "hi" ]> (stored_bag dialog_steps world_a)))
                     w0)) /\
    handle_message quiet_env dialog_steps message_hi world_a = (Ret tt, w') /\
    chat_state w' = Some "b" /\
    stored_bag dialog_steps w'
    = <[ "fa" := PyStr "hi" ]> (stored_bag dialog_steps world_a) /\
    stored_message_id dialog_steps w' = Some 5%Z /\
    trace w' =
      [ProcessMessage (Some "a") message_hi;
       Hook OnNext None;
       RenderText (Some "b") (<[ "fa" := PyStr "hi" ]> (stored_bag dialog_steps world_a))
         None;
       EditMessageReplyMarkup 5 7 None;
       RenderKbd (Some "b") (<[ "fa" := PyStr "hi" ]> (stored_bag dialog_steps world_a));
       Answer 5 "Enter fb" kbd;
       SetState (Some "b");
       Commit "dlg"].
Proof.
  refine (handle_message_advances quiet_env dialog_steps message_hi world_a
            (jump_step "fa" DNotImplemented) (jump_step "fb" DNotImplemented)
            (PyStr "hi") DNotImplemented (Some "b")
            _ _ _ _ _ _ _ _).
  - apply quiet_env_quiet.
  - apply Dialog_init_wf.
  - reflexivity.
  - reflexivity.
  - reflexivity.
  - reflexivity.
  - reflexivity.
  - reflexivity.
Defined.

(** X11: when the step names a truthy next state that has no registered
    step, the handler raises [KeyError] right after the on-next hook:
    nothing is rendered or sent, the chat's state is kept, and the value
    the step produced is not committed. *)
Theorem handle_message_unregistered_target (env : Env) (d : Dialog) (m : Message)
    (w : World) (step : Step) (value : pyval) (next_state : directive)
    (s : state_id) :
  dict_get (chat_state w) (steps d) = Some step ->
  step_process_message step m (stored_bag d w) = Ret (value, next_state) ->
  resolve d (chat_state w) next_state = Ret (inr s) ->
  truthy s = true -> dict_get s (steps d) = None ->
  handle_message env d m w =
  (Raise (KeyError s),
   {| chat_state := chat_state w; store := store w;
      trace := trace w ++ [ProcessMessage (chat_state w) m; Hook OnNext None] |}).
Proof.
  intros Hstep Hproc Hres Ht Hnone.
  rewrite (handle_message_processed env d m w step), Hproc by done.
  rewrite bind_run, (next_resolved _ _ _ _ _ _ _ _ s), Ht by done. simpl.
  unfold bind, lift, dict_getitem. rewrite Hnone. unfold logged. simpl.
  by rewrite <- app_assoc.
Qed.

Lemma handle_message_unregistered_target_witness :
  handle_message quiet_env dialog_jump message_hi world_a =
  (Raise (KeyError (Some "zzz")),
   {| chat_state := Some "a"; store := store world_a;
      trace := [ProcessMessage (Some "a") message_hi; Hook OnNext None] |}).
Proof.
  refine (handle_message_unregistered_target quiet_env dialog_jump message_hi world_a
            (jump_step "fa" (DValue (Some "zzz"))) (PyStr "hi") (DValue (Some "zzz"))
            (Some "zzz") _ _ _ _ _); reflexivity.
Defined.

(** X12: only [ValueError] is taken as a validation failure: any other
    exception of the step's processing operation is raised by the
    handler, for a message and for a callback alike, before anything is
    rendered, sent, stored or committed. *)
Theorem handlers_propagate (env : Env) (d : Dialog) (w : World) (step : Step)
    (e : exn) :
  dict_get (chat_state w) (steps d) = Some step ->
  (forall msg, e <> ValueError msg) ->
  (forall m, step_process_message step m (stored_bag d w) = Raise e ->
     handle_message env d m w = (Raise e, logged (ProcessMessage (chat_state w) m) w)) /\
  (forall c, not_navigation d c ->
     step_process_callback step c (stored_bag d w) = Raise e ->
     handle_callback env d c w = (Raise e, logged (ProcessCallback (chat_state w) c) w)).
Proof.
  intros Hstep He. split.
  - intros m Hproc. rewrite (handle_message_processed env d m w step), Hproc by done.
    destruct e; try done. by destruct (He msg).
  - intros c Hnav Hproc.
    rewrite (handle_callback_processed env d c w step), Hproc by done.
    destruct e; try done. by destruct (He msg).
Qed.

Lemma handlers_propagate_witness :
  handle_message quiet_env dialog_steps message_boom world_a
  = (Raise (KeyError None), logged (ProcessMessage (Some "a") message_boom) world_a).
Proof.
  apply (proj1 (handlers_propagate quiet_env dialog_steps world_a
                  (jump_step "fa" DNotImplemented) (KeyError None) eq_refl
                  ltac:(discriminate))).
  reflexivity.
Defined.

(** ** What the callback handler never does *)

Section Traces.
Context (P : event -> Prop).

Lemma traces_emits {A : Type} (m : M A) : emits P m -> traces P m.
Proof.
  intros Hm w r w' E. apply Hm in E as (_ & Hs & tr & Ht & HP). eauto.
Qed.

Lemma traces_bind {A B : Type} (m : M A) (k : A -> M B) :
  traces P m -> (forall a, traces P (k a)) -> traces P (bind m k).
Proof.
  intros Hm Hk w r w'. rewrite bind_run.
  destruct (m w) as [[a|e] w1] eqn:E; apply Hm in E as (tr & Ht & HP & Hs).
  - intros E2. apply Hk in E2 as (tr2 & Ht2 & HP2 & Hs2).
    exists (tr ++ tr2). split_and!.
    + by rewrite Ht2, Ht, app_assoc.
    + by apply Forall_app.
    + intros [H1 H2]%Forall_app. by rewrite Hs2, Hs.
  - intros [= <- <-]. eauto.
Qed.

Lemma traces_if {A : Type} (b : bool) (m1 m2 : M A) :
  traces P m1 -> traces P m2 -> traces P (if b then m1 else m2).
Proof. by destruct b. Qed.

Lemma traces_set_state (s : state_id) : P (SetState s) -> traces P (set_state s).
Proof. intros HP w r w' [= <- <-]. exists [SetState s]. simpl. auto. Qed.

Lemma traces_dd_commit (dd : DialogData) :
  P (Commit (dd_field dd)) -> traces P (dd_commit dd).
Proof.
  intros HP w r w' [= <- <-]. exists [Commit (dd_field dd)]. simpl.
  split_and!; [done|auto|]. by intros [[=] _]%Forall_cons.
Qed.

Lemma traces_get_state : traces P get_state.
Proof.
  intros w r w' [= <- <-]. exists []. by rewrite app_nil_r.
Qed.

Lemma traces_DialogData_init (field : string) : traces P (DialogData_init field).
Proof.
  intros w r w' [= <- <-]. exists []. by rewrite app_nil_r.
Qed.

End Traces.

Lemma traces_switch_step (P : event -> Prop) (env : Env) (d : Dialog) (m : Message)
    (dd : DialogData) (error : option exn) (next_state : state_id) (next_step : Step)
    (edit : bool) :
  (forall ev, is_process ev = false -> is_commit ev = false -> P ev) ->
  traces P (switch_step env d m dd error next_state next_step edit).
Proof.
  intros HP. unfold switch_step.
  apply traces_bind; [apply traces_emits; emits; by apply HP|intros _].
  apply traces_bind; [|intros dd'].
  - apply traces_emits. unfold edit_or_send, clear_markup, get_kbd.
    emits; try by apply HP.
  - apply traces_bind; [apply traces_set_state; by apply HP|intros _].
    apply traces_emits. emits.
Qed.

Lemma traces_done (P : event -> Prop) (env : Env) (d : Dialog) (m : Message)
    (dd : DialogData) :
  (forall ev, is_process ev = false -> is_commit ev = false -> P ev) ->
  traces P (done env d m dd).
Proof.
  intros HP. apply traces_emits.
  unfold done, _do_finish, _notify_finish, dd_reset, clear_markup.
  emits; by apply HP.
Qed.

Lemma traces_cancel (P : event -> Prop) (env : Env) (d : Dialog) (m : Message)
    (dd : DialogData) :
  (forall ev, is_process ev = false -> is_commit ev = false -> P ev) ->
  traces P (cancel env d m dd).
Proof.
  intros HP. apply traces_emits.
  unfold cancel, _do_finish, _notify_finish, dd_reset, clear_markup.
  emits; by apply HP.
Qed.

Lemma traces_ext (P : event -> Prop) {A : Type} (m m' : M A) :
  (forall w, m w = m' w) -> traces P m' -> traces P m.
Proof. intros Hext Hm w r w' E. rewrite Hext in E. by apply Hm in E. Qed.

Lemma traces_next_default (P : event -> Prop) (env : Env) (d : Dialog)
    (current_state : state_id) (m : Message) (dd : DialogData) (edit : bool)
    (error : option exn) :
  (forall ev, is_process ev = false -> is_commit ev = false -> P ev) ->
  traces P (next env d current_state m dd edit error DNotImplemented).
Proof.
  intros HP. unfold next.
  apply traces_bind; [apply traces_emits; emits; by apply HP|intros _].
  unfold resolve. destruct (next_step d current_state) as [s|e].
  - apply (traces_ext _ _
             (if negb (truthy s) then done env d m dd
              else (next_step <- lift (dict_getitem s (steps d));;
                    switch_step env d m dd error s next_step edit)));
      [intros w; reflexivity|].
    apply traces_if; [by apply traces_done|].
    apply traces_bind; [apply traces_emits; emits|intros ?].
    by apply traces_switch_step.
  - apply traces_emits. apply emits_bind_fails; [emits|].
    intros w. unfold lift. eauto.
Qed.

Lemma traces_back (P : event -> Prop) (env : Env) (d : Dialog) (c : CallbackQuery)
    (dd : DialogData) :
  (forall ev, is_process ev = false -> P ev) ->
  traces P (back env d c dd).
Proof.
  intros HP. unfold back.
  apply traces_bind; [apply traces_get_state|intros cur].
  apply traces_bind; [apply traces_emits; emits|intros step].
  apply traces_bind; [apply traces_emits; emits; by apply HP|intros _].
  apply traces_bind; [apply traces_emits; destruct (step_back step); emits|intros prev].
  apply traces_bind; [apply traces_emits; emits|intros prev_step].
  apply traces_bind; [apply traces_switch_step; auto|intros dd'].
  apply traces_dd_commit. by apply HP.
Qed.

(** X13: a callback that carries one of the four navigation identifiers
    is never passed to the step: the step's processing operation is not
    called. *)
Theorem navigation_never_processed (env : Env) (d : Dialog) (c : CallbackQuery)
    (w : World) (r : result unit) (w' : World) :
  data c = Some (done_cd d) \/ data c = Some (back_cd d) \/
  data c = Some (skip_cd d) \/ data c = Some (cancel_cd d) ->
  handle_callback env d c w = (r, w') ->
  exists tr, trace w' = trace w ++ tr /\ Forall (fun ev => is_process ev = false) tr.
Proof.
  intros Hnav E.
  assert (traces (fun ev => is_process ev = false) (handle_callback env d c)) as Htr.
  { unfold handle_callback.
    apply traces_bind; [apply traces_DialogData_init|intros dd].
    apply traces_bind; [apply traces_get_state|intros cur].
    repeat case_bool_decide.
    - apply traces_bind; [by apply traces_done|intros _]. apply traces_emits. emits.
    - apply traces_bind; [by apply traces_back|intros _]. apply traces_emits. emits.
    - apply traces_bind; [by apply traces_next_default|intros _].
      apply traces_emits. emits.
    - apply traces_bind; [by apply traces_cancel|intros _]. apply traces_emits. emits.
    - tauto. }
  apply Htr in E as (tr & Ht & HP & _). eauto.
Qed.

Lemma navigation_never_processed_witness :
  exists tr,
    trace (handle_callback quiet_env dialog_steps callback_skip world_a).2
    = trace world_a ++ tr /\
    Forall (fun ev => is_process ev = false) tr.
Proof.
  apply (navigation_never_processed quiet_env dialog_steps callback_skip world_a
           (handle_callback quiet_env dialog_steps callback_skip world_a).1).
  - right. right. left. reflexivity.
  - apply surjective_pairing.
Defined.

(** X14: the done, skip and cancel callbacks never commit DialogData:
    whatever they do to the displayed message, to the buffered data or to
    the chat's state, the store is left as it was. *)
Theorem navigation_without_commit (env : Env) (d : Dialog) (c : CallbackQuery)
    (w : World) (r : result unit) (w' : World) :
  wf_dialog d ->
  data c = Some (done_cd d) \/ data c = Some (skip_cd d) \/
  data c = Some (cancel_cd d) ->
  handle_callback env d c w = (r, w') ->
  store w' = store w /\
  exists tr, trace w' = trace w ++ tr /\ Forall (fun ev => is_commit ev = false) tr.
Proof.
  intros Hwf Hnav E.
  destruct (wf_cds_ne d Hwf) as (N1 & N2 & N3 & N4 & N5 & N6).
  assert (traces (fun ev => is_commit ev = false) (handle_callback env d c)) as Htr.
  { unfold handle_callback.
    apply traces_bind; [apply traces_DialogData_init|intros dd].
    apply traces_bind; [apply traces_get_state|intros cur].
    repeat case_bool_decide.
    - apply traces_bind; [by apply traces_done|intros _]. apply traces_emits. emits.
    - exfalso. destruct Hnav as [?|[?|?]]; congruence.
    - apply traces_bind; [by apply traces_next_default|intros _].
      apply traces_emits. emits.
    - apply traces_bind; [by apply traces_cancel|intros _]. apply traces_emits. emits.
    - tauto. }
  apply Htr in E as (tr & Ht & HP & Hs). split; [by apply Hs|eauto].
Qed.

Lemma navigation_without_commit_witness :
  store (handle_callback quiet_env dialog_steps callback_skip world_a).2 = store world_a /\
  exists tr,
    trace (handle_callback quiet_env dialog_steps callback_skip world_a).2
    = trace world_a ++ tr /\
    Forall (fun ev => is_commit ev = false) tr.
Proof.
  apply (navigation_without_commit quiet_env dialog_steps callback_skip world_a
           (handle_callback quiet_env dialog_steps callback_skip world_a).1).
  - apply Dialog_init_wf.
  - right. left. reflexivity.
  - apply surjective_pairing.
Defined.

(** ** Callbacks that reach the step *)

(** X15: a validation failure of the step's callback processing, in a
    registered truthy state, keeps the chat's state, renders the step's
    text with the error passed in, sends no new message when one is
    displayed, and leaves the stored entry of the step's field as it
    was. *)
Theorem callback_validation_failure (env : Env) (d : Dialog) (c : CallbackQuery)
    (w : World) (step : Step) (msg : string) (r : result unit) (w' : World) :
  truthy (chat_state w) = true -> not_navigation d c ->
  dict_get (chat_state w) (steps d) = Some step ->
  step_process_callback step c (stored_bag d w) = Raise (ValueError msg) ->
  handle_callback env d c w = (r, w') ->
  chat_state w' = chat_state w /\
  (exists tr, trace w' = trace w ++ tr /\
     RenderText (chat_state w) (stored_bag d w) (Some (ValueError msg)) ∈ tr /\
     (truthy_id (stored_message_id d w) = true ->
      Forall (fun ev => is_send ev = false) tr)) /\
  stored_bag d w' !! step_field step = stored_bag d w !! step_field step.
Proof.
  intros Ht Hnav Hstep Hfail.
  rewrite (handle_callback_processed env d c w step), Hfail by done.
  rewrite bind_run, (next_switch _ _ _ _ _ _ _ _ (chat_state w) step) by done.
  match goal with
  | |- context [switch_step ?e ?d ?m ?dd ?err ?ns ?st ?ed ?w0] =>
      destruct (switch_step e d m dd err ns st ed w0) as [[dd'|e'] w1] eqn:E;
      apply switch_step_spec in E as (Hs & (tr & Htr & Hedit) & Hr)
  end; simpl in *.
  - destruct Hr as (Hc & Hd & Hf). rewrite bind_run. unfold emit, dd_commit.
    destruct (raises env (trace w1) AnswerCallback); intros [= <- <-]; simpl;
      (split_and!; [done| |]).
    + eexists. rewrite Htr, <- !app_assoc. split; [reflexivity|]. split.
      * simpl. rewrite !elem_of_cons. tauto.
      * intros Hid. repeat constructor. apply Forall_app. split; [by apply Hedit|].
        by repeat constructor.
    + unfold stored_bag. by rewrite Hs.
    + eexists. rewrite Htr, <- !app_assoc. split; [reflexivity|]. split.
      * simpl. rewrite !elem_of_cons. tauto.
      * intros Hid. repeat constructor. apply Forall_app. split; [by apply Hedit|].
        apply Forall_app. split; by repeat constructor.
    + unfold stored_bag. simpl. rewrite Hf. simpl. rewrite lookup_insert_eq. simpl.
      fold (dd_data dd'). by rewrite Hd.
  - intros [= <- <-]. split_and!; [done| |].
    + eexists. rewrite Htr, <- !app_assoc. split; [reflexivity|]. split.
      * simpl. rewrite !elem_of_cons. tauto.
      * intros Hid. repeat constructor. by apply Hedit.
    + unfold stored_bag. by rewrite Hs.
Qed.

Lemma callback_validation_failure_witness :
  chat_state (handle_callback quiet_env dialog_steps callback_bad world_a).2 = Some "a" /\
  (exists tr,
     trace (handle_callback quiet_env dialog_steps callback_bad world_a).2
     = trace world_a ++ tr /\
     RenderText (Some "a") (stored_bag dialog_steps world_a)
       (Some (ValueError "not a number")) ∈ tr /\
     (truthy_id (stored_message_id dialog_steps world_a) = true ->
      Forall (fun ev => is_send ev = false) tr)) /\
  stored_bag dialog_steps (handle_callback quiet_env dialog_steps callback_bad world_a).2
    !! "fa" = stored_bag dialog_steps world_a !! "fa".
Proof.
  apply (callback_validation_failure quiet_env dialog_steps callback_bad world_a
           (jump_step "fa" DNotImplemented) "not a number"
           (handle_callback quiet_env dialog_steps callback_bad world_a).1).
  - reflexivity.
  - repeat split; discriminate.
  - reflexivity.
  - reflexivity.
  - apply surjective_pairing.
Defined.

Lemma succeeds_emit_calm (env : Env) (ev : event) :
  (forall tr, raises env tr ev = None) -> succeeds (emit env ev).
Proof. intros Hq w. unfold emit. rewrite Hq. by eexists _, _. Qed.

Lemma succeeds_answer_calm (env : Env) (m : Message) (t : string) (kbd : Markup) :
  (forall tr, raises env tr (Answer (chat_id m) t kbd) = None) ->
  succeeds (answer env m t kbd).
Proof.
  intros Hq w. unfold answer.
  destruct (succeeds_emit_calm env _ Hq w) as (a & w1 & ->). by eexists _, _.
Qed.

Ltac succeeds_calm_step :=
  lazymatch goal with
  | |- succeeds (bind _ _) => apply succeeds_bind; [|intros ?]
  | |- succeeds (if _ then _ else _) => apply succeeds_if
  | |- succeeds (except_not_modified _) => apply succeeds_except_not_modified
  | |- succeeds (ret _) => apply succeeds_ret
  | |- succeeds (log _) => apply succeeds_log
  | |- succeeds (set_state _) => apply succeeds_set_state
  | |- succeeds (emit _ _) => apply succeeds_emit_calm
  | |- succeeds (answer _ _ _ _) => apply succeeds_answer_calm
  | |- succeeds (get_kbd _ _ _ _) => apply succeeds_get_kbd
  end.

Lemma succeeds_switch_step_calm (env : Env) (d : Dialog) (m : Message)
    (dd : DialogData) (error : option exn) (next_state : state_id)
    (next_step : Step) (edit : bool) :
  (forall tr ev, ev <> AnswerCallback -> raises env tr ev = None) ->
  next_state ∈ states d ->
  succeeds (switch_step env d m dd error next_state next_step edit).
Proof.
  intros Hq Hin. unfold switch_step, edit_or_send, clear_markup.
  repeat succeeds_calm_step; try done; intros tr; by apply Hq.
Qed.

(** X16: the callback handler acknowledges the callback before it
    commits: when the acknowledgement raises after a step switch, the
    handler raises, the chat is already in the next state, and neither
    the value the step produced nor anything else is committed. *)
Theorem callback_answer_failure (env : Env) (d : Dialog) (c : CallbackQuery)
    (w : World) (step : Step) (value : pyval) (next_state : directive)
    (s : state_id) (e : exn) :
  wf_dialog d -> not_navigation d c ->
  dict_get (chat_state w) (steps d) = Some step ->
  step_process_callback step c (stored_bag d w) = Ret (value, next_state) ->
  resolve d (chat_state w) next_state = Ret (inr s) ->
  truthy s = true -> s ∈ states d ->
  (forall tr ev, raises env tr ev =
     match ev with AnswerCallback => Some e | _ => None end) ->
  exists w', handle_callback env d c w = (Raise e, w') /\
             chat_state w' = s /\ store w' = store w.
Proof.
  intros Hwf Hnav Hstep Hproc Hres Ht Hin Henv.
  destruct (wf_dict_get d s Hwf Hin) as [next Hnext].
  rewrite (handle_callback_processed env d c w step), Hproc by done.
  rewrite bind_run, (next_switch _ _ _ _ _ _ _ _ s next) by done.
  match goal with
  | |- context [switch_step ?e ?d ?m ?dd ?err ?ns ?st ?ed ?w0] =>
      destruct (succeeds_switch_step_calm e d m dd err ns st ed) with (w := w0)
        as (dd' & w1 & E); [intros tr ev Hev; rewrite Henv; by destruct ev|done|];
      rewrite E; apply switch_step_spec in E as (Hs & _ & Hc & _)
  end.
  rewrite bind_run. unfold emit. rewrite Henv. eexists. split; [reflexivity|].
  simpl in *. done.
Qed.

Lemma callback_answer_failure_witness :
  exists w',
    handle_callback answer_fails_env dialog_steps callback_pick world_a
    = (Raise (NetworkError "query is too old"), w') /\
    chat_state w' = Some "b" /\ store w' = store world_a.
Proof.
  refine (callback_answer_failure answer_fails_env dialog_steps callback_pick world_a
            (jump_step "fa" DNotImplemented) (PyStr "pick") DNotImplemented (Some "b")
            (NetworkError "query is too old") _ _ _ _ _ _ _ _).
  - apply Dialog_init_wf.
  - repeat split; discriminate.
  - reflexivity.
  - reflexivity.
  - reflexivity.
  - reflexivity.
  - compute_done.
  - intros tr ev. reflexivity.
Defined.

(** ** The skip callback *)

Lemma handle_callback_skip (env : Env) (d : Dialog) (c : CallbackQuery) (w : World) :
  wf_dialog d -> data c = Some (skip_cd d) ->
  handle_callback env d c w =
  (next env d (chat_state w) (message c) (loaded d w) true None DNotImplemented;;
   emit env AnswerCallback) w.
Proof.
  intros Hwf Hc. destruct (wf_cds_ne d Hwf) as (N1 & N2 & N3 & N4 & N5 & N6).
  unfold handle_callback, DialogData_init, get_state, bind at 1 2.
  rewrite !bool_decide_false by (rewrite Hc; congruence).
  by rewrite bool_decide_true.
Qed.

(** X17: the skip callback in a truthy state that is followed by another
    truthy state moves the chat to that state; the skipped step's field
    gets no value and nothing is committed, so the store is as before. *)
Theorem skip_advances (env : Env) (d : Dialog) (c : CallbackQuery) (w : World)
    (K : nat) (s' : state_id) :
  quiet env -> wf_dialog d -> data c = Some (skip_cd d) ->
  states d !! K = Some (chat_state w) -> truthy (chat_state w) = true ->
  states d !! (K + 1) = Some s' -> truthy s' = true ->
  exists w', handle_callback env d c w = (Ret tt, w') /\
             chat_state w' = s' /\ store w' = store w.
Proof.
  intros Hq Hwf Hc HK Ht HK' Ht'.
  assert (s' ∈ states d) as Hin by by eapply list_elem_of_lookup_2.
  destruct (wf_dict_get d s' Hwf Hin) as [next Hnext].
  rewrite handle_callback_skip by done.
  rewrite bind_run, (next_switch _ _ _ _ _ _ _ _ s' next); try done.
  - match goal with
    | |- context [switch_step ?e ?d ?m ?dd ?err ?ns ?st ?ed ?w0] =>
        destruct (succeeds_switch_step e d m dd err ns st ed Hq Hin w0)
          as (dd' & w1 & E);
        rewrite E; apply switch_step_spec in E as (Hs & _ & Hcs & _)
    end.
    rewrite emit_quiet by done. eexists. split; [reflexivity|]. simpl in *. done.
  - simpl. by rewrite (next_step_truthy d _ K), HK' by (try done; apply Hwf).
Qed.

Lemma skip_advances_witness :
  exists w', handle_callback quiet_env dialog_steps callback_skip world_a = (Ret tt, w') /\
             chat_state w' = Some "b" /\ store w' = store world_a.
Proof.
  refine (skip_advances quiet_env dialog_steps callback_skip world_a 0 (Some "b")
            _ _ _ _ _ _ _).
  - apply quiet_env_quiet.
  - apply Dialog_init_wf.
  - reflexivity.
  - reflexivity.
  - reflexivity.
  - reflexivity.
  - reflexivity.
Defined.

Lemma done_quiet_run (env : Env) (d : Dialog) (m : Message) (dd : DialogData)
    (w : World) :
  quiet env ->
  done env d m dd w =
  (Ret (reset_data dd),
   {| chat_state := chat_state w; store := store w;
      trace := trace w ++
        (if truthy_id (dd_message_id dd)
         then [EditMessageReplyMarkup (chat_id m) (default 0%Z (dd_message_id dd)) None]
         else []) ++
        [Reset (dd_field dd); Hook OnDone (Some (dd_data dd))] ++
        map (fun c => Callback c (Some (dd_data dd))) (done_callbacks d) ++
        [Hook OnFinish None] ++
        map (fun c => Callback c None) (finished_callbacks d) |}).
Proof.
  intros Hq. unfold done, _do_finish, clear_markup, bind at 1 2.
  destruct (truthy_id (dd_message_id dd)).
  - unfold except_not_modified. rewrite emit_quiet by done.
    unfold dd_reset, bind at 1 2, log, ret. simpl.
    unfold bind at 1. rewrite for_each_callbacks by (intros; apply Hq).
    unfold _notify_finish, bind at 1 2, log. simpl.
    rewrite for_each_callbacks by (intros; apply Hq). simpl.
    by rewrite <- !app_assoc.
  - unfold dd_reset, ret at 1, bind at 1 2, log, ret. simpl.
    unfold bind at 1. rewrite for_each_callbacks by (intros; apply Hq).
    unfold _notify_finish, bind at 1 2, log. simpl.
    rewrite for_each_callbacks by (intros; apply Hq). simpl.
    by rewrite <- !app_assoc.
Qed.

(** X18: the skip callback in the last state, when that state is truthy,
    finishes the dialog like [done]: on-next, the buttons are cleared,
    DialogData is reset, the done and finish notifications run and the
    callback is acknowledged; the chat's state is not changed and nothing
    is committed. *)
Theorem skip_last_finishes (env : Env) (d : Dialog) (c : CallbackQuery) (w : World)
    (K : nat) :
  quiet env -> wf_dialog d -> data c = Some (skip_cd d) ->
  states d !! K = Some (chat_state w) -> truthy (chat_state w) = true ->
  K + 1 = length (states d) ->
  handle_callback env d c w =
  (Ret tt,
   {| chat_state := chat_state w; store := store w;
      trace := trace w ++
        [Hook OnNext None] ++
        (if truthy_id (stored_message_id d w)
         then [EditMessageReplyMarkup (chat_id (message c))
                 (default 0%Z (stored_message_id d w)) None]
         else []) ++
        [Reset (dialog_field d); Hook OnDone (Some (stored_bag d w))] ++
        map (fun c => Callback c (Some (stored_bag d w))) (done_callbacks d) ++
        [Hook OnFinish None] ++
        map (fun c => Callback c None) (finished_callbacks d) ++
        [AnswerCallback] |}).
Proof.
  intros Hq Hwf Hc HK Ht HN.
  rewrite handle_callback_skip by done.
  rewrite bind_run, (next_resolved _ _ _ _ _ _ _ _ None).
  - simpl. rewrite done_quiet_run, emit_quiet by done. unfold logged. simpl.
    do 2 f_equal. change (dd_message_id (loaded d w)) with (stored_message_id d w).
    change (dd_data (loaded d w)) with (stored_bag d w).
    repeat (progress (rewrite <- ?app_assoc; simpl)). reflexivity.
  - simpl. rewrite (next_step_truthy d _ K) by (try done; apply Hwf).
    rewrite lookup_ge_None_2; [done|lia].
Qed.

Lemma skip_last_finishes_witness :
  handle_callback quiet_env dialog_steps callback_skip world_b =
  (Ret tt,
   {| chat_state := Some "b"; store := store world_b;
      trace := [Hook OnNext None; EditMessageReplyMarkup 5 7 None; Reset "dlg";
                Hook OnDone (Some {[ "fa" := PyStr "1"; "fb" := PyStr "2" ]});
                Hook OnFinish None; AnswerCallback] |}).
Proof.
  refine (skip_last_finishes quiet_env dialog_steps callback_skip world_b 1 _ _ _ _ _ _).
  - apply quiet_env_quiet.
  - apply Dialog_init_wf.
  - reflexivity.
  - reflexivity.
  - reflexivity.
  - reflexivity.
Defined.

(** ** [resume] *)

(** X19: [resume] in a state that is not registered returns [False] and
    does nothing: no hook, nothing rendered or sent, nothing committed. *)
Theorem resume_unregistered (env : Env) (d : Dialog) (m : Message) (w : World) :
  dict_get (chat_state w) (steps d) = None ->
  resume env d m w = (Ret false, w).
Proof.
  intros Hnone. unfold resume, DialogData_init, get_state, bind. by rewrite Hnone.
Qed.

Lemma resume_unregistered_witness :
  resume quiet_env dialog_ab message_bad world_zzz = (Ret false, world_zzz).
Proof. apply resume_unregistered. reflexivity. Defined.



(** ** [start] *)

(** X21: [start] with the default next state, on a dialog that has at
    least one state and when no call raises: it runs the on-start hook,
    renders the first step's text against the seeded bag, clears the
    buttons of a message left displayed, sends one new message with that
    text and the first step's keyboard, sets the chat's state to the
    first state and commits; the committed message identifier is the one
    returned for the sent message, and no text is edited. *)
Theorem start_first_state (env : Env) (d : Dialog) (m : Message)
    (initial : option (gmap string pyval)) (w : World) (s0 : state_id)
    (step : Step) :
  quiet env -> wf_dialog d -> states d !! 0 = Some s0 ->
  dict_get s0 (steps d) = Some step ->
  let bag := dd_data (dd_update initial (loaded d w)) in
  let before :=
    trace w ++
    [Hook OnStart None; RenderText s0 bag None] ++
    (if truthy_id (stored_message_id d w)
     then [EditMessageReplyMarkup (chat_id m) (default 0%Z (stored_message_id d w)) None]
     else []) ++
    [RenderKbd s0 bag] in
  exists kbd w',
    (forall w0, get_kbd d s0 step bag w0 = (Ret kbd, logged (RenderKbd s0 bag) w0)) /\
    start env d m initial StartNotImplemented w = (Ret tt, w') /\
    chat_state w' = s0 /\
    stored_bag d w' = bag /\
    stored_message_id d w' = Some (new_message_id env before) /\
    trace w' = before ++ [Answer (chat_id m) (step_render_text step bag None) kbd;
                          SetState s0;
                          Commit (dialog_field d)].
Proof.
  intros Hq Hwf H0 Hstep bag before.
  assert (s0 ∈ states d) as Hin by by eapply list_elem_of_lookup_2.
  assert (next_step d None = Ret s0) as Hnext.
  { unfold next_step. simpl. change 0%Z with (Z.of_nat 0).
    by rewrite getitem_nat, H0. }
  destruct (get_kbd_run d s0 step bag Hin) as (kbd & Hkbd).
  exists kbd. eexists. split; [exact Hkbd|].
  unfold start, DialogData_init, dd_set_old_state, bind at 1 2 3, log.
  unfold bind at 1, lift. rewrite Hnext.
  unfold bind at 1. rewrite (dict_getitem_Some _ _ step) by done.
  unfold bind at 1. fold (loaded d w).
  match goal with
  | |- context [switch_step ?e ?d ?m ?dd ?err ?ns ?st false ?w0] =>
      rewrite (switch_step_send_kbd e d m dd err ns st false w0 kbd Hq Hkbd eq_refl)
  end.
  split; [reflexivity|]. simpl. split_and!.
  - done.
  - unfold stored_bag. simpl. by rewrite lookup_insert_eq.
  - unfold stored_message_id. simpl. rewrite lookup_insert_eq. simpl.
    do 2 f_equal. subst before. unfold stored_message_id, loaded, dd_message_id. simpl.
    by rewrite <- !app_assoc.
  - subst before. unfold stored_message_id, loaded, dd_message_id. simpl.
    by rewrite <- !app_assoc.
Qed.

Lemma start_first_state_witness :
  exists kbd w',
    (forall w0, get_kbd dialog_ab (Some "a") (sample_step "fa" BackNotImplemented) ∅ w0
                = (Ret kbd, logged (RenderKbd (Some "a") ∅) w0)) /\
    start quiet_env dialog_ab message_hi None StartNotImplemented world_new
    = (Ret tt, w') /\
    chat_state w' = Some "a" /\
    stored_bag dialog_ab w' = ∅ /\
    stored_message_id dialog_ab w' = Some 3%Z /\
    trace w' =
      [Hook OnStart None;
       RenderText (Some "a") ∅ None;
       RenderKbd (Some "a") ∅;
       Answer 5 "Enter fa" kbd;
       SetState (Some "a");
       Commit "dlg"].
Proof.
  refine (start_first_state quiet_env dialog_ab message_hi None world_new (Some "a")
            (sample_step "fa" BackNotImplemented) _ _ _ _).
  - apply quiet_env_quiet.
  - apply Dialog_init_wf.
  - reflexivity.
  - reflexivity.
Defined.

(** X22: [start] fails after the on-start hook and before anything is
    rendered, sent or committed when the dialog has no state
    ([IndexError] from the default next state) or when the explicit next
    state has no registered step ([KeyError]). *)
Theorem start_errors (env : Env) (d : Dialog) (m : Message)
    (initial : option (gmap string pyval)) (w : World) :
  (states d = [] ->
   start env d m initial StartNotImplemented w
   = (Raise IndexError, logged (Hook OnStart None) w)) /\
  (forall s, dict_get s (steps d) = None ->
     start env d m initial (StartAt s) w
     = (Raise (KeyError s), logged (Hook OnStart None) w)).
Proof.
  split.
  - intros Hnil.
    unfold start, DialogData_init, dd_set_old_state, bind at 1 2 3, log.
    unfold bind at 1, lift, next_step. simpl. by rewrite Hnil.
  - intros s Hnone.
    unfold start, DialogData_init, dd_set_old_state, bind at 1 2 3, log.
    unfold bind at 1, ret. unfold bind at 1, lift, dict_getitem. by rewrite Hnone.
Qed.

Lemma start_errors_witness :
  start quiet_env dialog_empty message_hi None StartNotImplemented world_new
  = (Raise IndexError, logged (Hook OnStart None) world_new) /\
  start quiet_env dialog_ab message_hi None (StartAt (Some "zzz")) world_new
  = (Raise (KeyError (Some "zzz")), logged (Hook OnStart None) world_new).
Proof.
  split.
  - apply (proj1 (start_errors quiet_env dialog_empty message_hi None world_new)).
    reflexivity.
  - apply (proj2 (start_errors quiet_env dialog_ab message_hi None world_new)).
    reflexivity.
Defined.

(** ** [SimpleDialog] *)

(** X23: the keyboard of a [SimpleDialog] is the step's own keyboard,
    followed by one row with the cancel button when cancelling is allowed
    by the dialog and the step; back, skip and done are never offered. *)
Theorem SimpleDialog_kbd (st : steps_key) (registered step : Step) (can_cancel : bool)
    (prefix field : string) (bag : gmap string pyval) (w : World) :
  let d := SimpleDialog_init st registered can_cancel prefix field in
  get_kbd d (key_state st) step bag w =
  (Ret (default [] (step_render_kbd step bag) ++
        (if can_cancel && step_can_cancel step
         then [[nav_button "Cancel" (prefix +:+ "[cancel]")]] else [])),
   logged (RenderKbd (key_state st) bag) w).
Proof.
  simpl. unfold get_kbd, bind, log, lift, ret, can_back. simpl.
  rewrite decide_True by done. simpl.
  unfold add_row. simpl.
  destruct (can_cancel && step_can_cancel step); simpl; [done|].
  by rewrite app_nil_r.
Qed.

(** X24: in a [SimpleDialog], [next] with the default directive from the
    dialog's only state always finishes the dialog: it runs the on-next
    hook and then [done]. *)
Theorem SimpleDialog_next_finishes (env : Env) (st : steps_key) (step : Step)
    (can_cancel : bool) (prefix field : string) (m : Message) (dd : DialogData)
    (edit : bool) (error : option exn) (w : World) :
  let d := SimpleDialog_init st step can_cancel prefix field in
  next env d (key_state st) m dd edit error DNotImplemented w
  = done env d m dd (logged (Hook OnNext None) w).
Proof.
  simpl. destruct (truthy (key_state st)) eqn:Ht.
  - rewrite (next_resolved _ _ _ _ _ _ _ _ None); [done|].
    unfold resolve, next_step. rewrite Ht. simpl. by rewrite decide_True.
  - rewrite (next_resolved _ _ _ _ _ _ _ _ (key_state st)); [by rewrite Ht|].
    unfold resolve, next_step. by rewrite Ht.
Qed.

(** ** [_wrap_kbd] *)

Lemma wrapped_length (w : nat) (rows : Markup) :
  0 < w -> wrapped w rows -> length rows = (length (concat rows) + w - 1) / w.
Proof.
  intros Hw. induction 1 as [|row Hrow|row rest Hrow _ IH]; simpl.
  - symmetry. apply Nat.div_small. lia.
  - rewrite app_nil_r. apply (Nat.div_unique _ _ 1 (length row - 1)); lia.
  - rewrite length_app, IH, Hrow.
    replace (w + length (concat rest) + w - 1)
      with (1 * w + (length (concat rest) + w - 1)) by lia.
    rewrite Nat.div_add_l by lia. lia.
Qed.

(** X25: with a positive width [_wrap_kbd] keeps all buttons in order,
    makes rows of exactly [width] buttons except that the last one may be
    shorter, and so makes ceil(n / width) rows out of n buttons. *)
Theorem wrap_kbd_rows (w : nat) (kbd : list InlineKeyboardButton) :
  0 < w ->
  concat (_wrap_kbd (Z.of_nat w) kbd) = kbd /\
  wrapped w (_wrap_kbd (Z.of_nat w) kbd) /\
  length (_wrap_kbd (Z.of_nat w) kbd) = (length kbd + w - 1) / w.
Proof.
  intros Hw. destruct (wrap_loop_wrapped w kbd []) as [Hc Hwr]; [simpl; lia|].
  fold (_wrap_kbd (Z.of_nat w) kbd) in Hc, Hwr. simpl in Hc.
  split_and!; [done..|]. rewrite (wrapped_length w) by done. by rewrite Hc.
Qed.

Lemma wrap_kbd_rows_witness :
  concat (_wrap_kbd 2 [rendered "1"; rendered "2"; rendered "3"; rendered "4"; rendered "5"])
  = [rendered "1"; rendered "2"; rendered "3"; rendered "4"; rendered "5"] /\
  wrapped 2 (_wrap_kbd 2 [rendered "1"; rendered "2"; rendered "3"; rendered "4";
                          rendered "5"]) /\
  length (_wrap_kbd 2 [rendered "1"; rendered "2"; rendered "3"; rendered "4";
                       rendered "5"]) = 3.
Proof.
  apply (wrap_kbd_rows 2 [rendered "1"; rendered "2"; rendered "3"; rendered "4";
                           rendered "5"]).
  lia.
Defined.

Lemma wrap_loop_singletons (w : Z) (kbd : list InlineKeyboardButton) (res : Markup) :
  (w <= 1)%Z -> wrap_loop w kbd res [] = res ++ map (fun b => [b]) kbd.
Proof.
  intros Hw. revert res. induction kbd as [|b kbd IH]; intros res; simpl.
  - by rewrite app_nil_r.
  - destruct (w <=? _)%Z eqn:E; [|apply Z.leb_gt in E; simpl in E; lia].
    rewrite IH. by rewrite <- app_assoc.
Qed.

(** X26: with a width of one or less, negative widths included,
    [_wrap_kbd] puts every button in a row of its own. *)
Theorem wrap_kbd_narrow (w : Z) (kbd : list InlineKeyboardButton) :
  (w <= 1)%Z -> _wrap_kbd w kbd = map (fun b => [b]) kbd.
Proof. intros Hw. unfold _wrap_kbd. by rewrite wrap_loop_singletons. Qed.

Lemma wrap_kbd_narrow_witness :
  _wrap_kbd (-3) [rendered "1"; rendered "2"] = [[rendered "1"]; [rendered "2"]].
Proof. apply (wrap_kbd_narrow (-3) [rendered "1"; rendered "2"]). lia. Defined.

Lemma concat_wrap_loop (w : Z) (kbd row : list InlineKeyboardButton) (res : Markup) :
  concat (wrap_loop w kbd res row) = concat res ++ row ++ kbd.
Proof.
  revert res row. induction kbd as [|b kbd IH]; intros res row; simpl.
  - destruct row; simpl; [by rewrite app_nil_r|].
    rewrite concat_app. simpl. by rewrite !app_nil_r.
  - destruct (w <=? _)%Z; rewrite IH.
    + rewrite concat_app. simpl. by rewrite !app_nil_r, <- !app_assoc.
    + by rewrite <- !app_assoc.
Qed.

Lemma wrap_loop_nonempty (w : Z) (kbd row : list InlineKeyboardButton) (res : Markup) :
  Forall (fun r => r <> []) res ->
  Forall (fun r => r <> []) (wrap_loop w kbd res row).
Proof.
  revert res row. induction kbd as [|b kbd IH]; intros res row Hres; simpl.
  - destruct row; [done|]. apply Forall_app. split; [done|]. by repeat constructor.
  - destruct (w <=? _)%Z; apply IH; [|done].
    apply Forall_app. split; [done|]. repeat constructor. by destruct row.
Qed.

(** ** Rendering a tree *)

Lemma Keyboard_nested_ind (P : Keyboard -> Prop) :
  (forall when, P (BaseKeyboard when)) ->
  (forall text callback_data on_click when, P (Button text callback_data on_click when)) ->
  (forall text uri when, P (Uri text uri when)) ->
  (forall buttons keep_rows width when,
     Forall P buttons -> P (Group buttons keep_rows width when)) ->
  forall k, P k.
Proof.
  intros HK HB HU HG. fix IH 1. intros [w|t c o w|t u w|bs keep width w].
  - apply HK.
  - apply HB.
  - apply HU.
  - apply HG. induction bs as [|b bs IHbs]; constructor; [apply IH|apply IHbs].
Qed.

Lemma group_loop_Ret (render : Keyboard -> result Markup) (keep_rows : bool)
    (buttons : list Keyboard) (kbd out : Markup) :
  group_loop render keep_rows buttons kbd = Ret out ->
  exists rs, Forall2 (fun b r => render b = Ret r) buttons rs /\
             out = foldl (group_add keep_rows) kbd rs.
Proof.
  revert kbd. induction buttons as [|b bs IH]; intros kbd; simpl.
  - intros [= <-]. exists []. by split.
  - destruct (render b) as [r|e] eqn:E; [|done].
    intros (rs & Hrs & ->)%IH. exists (r :: rs). split; [by constructor|done].
Qed.

Lemma group_loop_Raise (render : Keyboard -> result Markup) (keep_rows : bool)
    (buttons : list Keyboard) (kbd : Markup) (e : exn) :
  group_loop render keep_rows buttons kbd = Raise e ->
  exists b, b ∈ buttons /\ render b = Raise e.
Proof.
  revert kbd. induction buttons as [|b bs IH]; intros kbd; simpl; [done|].
  destruct (render b) as [r|e'] eqn:E.
  - intros (b' & Hb' & Hr)%IH. exists b'. split; [by apply elem_of_cons; right|done].
  - intros [= <-]. exists b. split; [by apply elem_of_cons; left|done].
Qed.

Lemma render_kbd_Group_inv (buttons : list Keyboard) (keep_rows : bool) (width : Z)
    (when : When) (data : gmap string pyval) (r : result Markup) :
  render_kbd (Group buttons keep_rows width when) data = r ->
  (when data = false /\ r = Ret []) \/
  (when data = true /\
   ((exists e b, b ∈ buttons /\ render_kbd b data = Raise e /\ r = Raise e) \/
    (exists rs, Forall2 (fun b r => render_kbd b data = Ret r) buttons rs /\
                r = group_finish keep_rows width (foldl (group_add keep_rows) [] rs)))).
Proof.
  rewrite render_kbd_unfold. simpl. destruct (when data); simpl; [|by left; eauto].
  intros <-. right. split; [done|].
  destruct (group_loop _ keep_rows buttons []) as [kbd|e] eqn:E.
  - apply group_loop_Ret in E as (rs & Hrs & ->). right. eauto.
  - apply group_loop_Raise in E as (b & Hb & Hr). left. eauto.
Qed.

Lemma group_add_nonempty (keep_rows : bool) (kbd b_kbd : Markup) :
  Forall (fun r => r <> []) kbd -> Forall (fun r => r <> []) b_kbd ->
  Forall (fun r => r <> []) (group_add keep_rows kbd b_kbd).
Proof.
  intros Hk Hb. destruct kbd as [|row rest]; simpl; [done|].
  destruct keep_rows.
  - apply (Forall_app _ (row :: rest) b_kbd). by split.
  - apply Forall_cons in Hk as [Hrow Hrest]. constructor; [|done]. by destruct row.
Qed.

Lemma foldl_group_add_nonempty (keep_rows : bool) (rs : list Markup) (kbd : Markup) :
  Forall (fun r => r <> []) kbd ->
  Forall (fun b_kbd => Forall (fun r => r <> []) b_kbd) rs ->
  Forall (fun r => r <> []) (foldl (group_add keep_rows) kbd rs).
Proof.
  intros Hk Hrs. revert kbd Hk. induction Hrs as [|r rs Hr _ IH]; intros kbd Hk; simpl.
  - done.
  - apply IH. by apply group_add_nonempty.
Qed.

(** X27: whatever the tree and the data, a keyboard that renders has no
    empty row. *)
Theorem render_kbd_no_empty_row (k : Keyboard) (data : gmap string pyval)
    (kbd : Markup) :
  render_kbd k data = Ret kbd -> Forall (fun row => row <> []) kbd.
Proof.
  revert kbd.
  induction k as [w|t c o w|t u w|bs keep width w IH] using Keyboard_nested_ind;
    intros kbd.
  - rewrite render_kbd_unfold. destruct (negb _); [|done]. intros [= <-]. constructor.
  - rewrite render_kbd_unfold. destruct (negb _); intros [= <-]; by repeat constructor.
  - rewrite render_kbd_unfold. destruct (negb _); intros [= <-]; by repeat constructor.
  - intros [[_ [= ->]]|[_ [(e & b & _ & _ & [=])|(rs & Hrs & Hfin)]]]%render_kbd_Group_inv;
      [done|].
    assert (Forall (fun r => r <> []) (foldl (group_add keep) [] rs)) as Hne.
    { apply foldl_group_add_nonempty; [done|].
      clear Hfin. induction Hrs as [|b r bs rs Hb _ IHrs]; [done|].
      apply Forall_cons in IH as [IHb IHbs]. constructor; [by apply IHb|by apply IHrs]. }
    unfold group_finish in Hfin. destruct (negb keep && negb (width =? 0)%Z).
    + destruct (getitem _ 0) as [row|]; [|done]. injection Hfin as ->.
      by apply wrap_loop_nonempty.
    + by injection Hfin as ->.
Qed.

Lemma render_kbd_no_empty_row_witness :
  Forall (fun row => row <> [])
    [[rendered "1"]; [rendered "3"]; [rendered "5"]].
Proof.
  apply (render_kbd_no_empty_row sample_tree ∅). reflexivity.
Defined.

Lemma group_finish_Raise (keep_rows : bool) (width : Z) (kbd : Markup) (e : exn) :
  group_finish keep_rows width kbd = Raise e <->
  e = IndexError /\ keep_rows = false /\ width <> 0%Z /\ kbd = [].
Proof.
  unfold group_finish. split.
  - destruct keep_rows; simpl; [done|].
    destruct (Z.eqb_spec width 0); simpl; [done|].
    destruct kbd as [|row rest]; [|done].
    unfold getitem. simpl. by intros [= <-].
  - intros (-> & -> & Hw & ->). simpl.
    by rewrite (proj2 (Z.eqb_neq width 0) Hw).
Qed.

Lemma group_loop_Raise_first (render : Keyboard -> result Markup) (keep_rows : bool)
    (buttons : list Keyboard) (kbd : Markup) (e : exn) :
  group_loop render keep_rows buttons kbd = Raise e <->
  exists pre b post,
    buttons = pre ++ b :: post /\
    Forall (fun b' => exists r, render b' = Ret r) pre /\
    render b = Raise e.
Proof.
  revert kbd. induction buttons as [|b bs IH]; intros kbd; simpl.
  - split; [done|]. intros (pre & b & post & H & _). by destruct pre.
  - destruct (render b) as [r|e'] eqn:E.
    + rewrite IH. split.
      * intros (pre & b' & post & -> & Hpre & Hb').
        exists (b :: pre), b', post. split_and!; [done| |done].
        constructor; [by exists r|done].
      * intros (pre & b' & post & H & Hpre & Hb').
        destruct pre as [|p pre]; simpl in H; injection H as -> ->.
        -- congruence.
        -- apply Forall_cons in Hpre as [_ Hpre]. by exists pre, b', post.
    + split.
      * intros [= ->]. exists [], b, bs. by split_and!.
      * intros (pre & b' & post & H & Hpre & Hb').
        destruct pre as [|p pre]; simpl in H; injection H as -> ->.
        -- congruence.
        -- apply Forall_cons in Hpre as [[r Hr] _]. congruence.
Qed.

Lemma group_add_nil (keep_rows : bool) (kbd b_kbd : Markup) :
  group_add keep_rows kbd b_kbd = [] <-> kbd = [] /\ b_kbd = [].
Proof.
  split.
  - destruct kbd as [|row rest]; simpl; [done|]. by destruct keep_rows.
  - by intros [-> ->].
Qed.

Lemma foldl_group_add_nil (keep_rows : bool) (rs : list Markup) (kbd : Markup) :
  foldl (group_add keep_rows) kbd rs = [] <-> kbd = [] /\ Forall (fun r => r = []) rs.
Proof.
  revert kbd. induction rs as [|r rs IH]; intros kbd; simpl.
  - split; [by intros ->|by intros [-> _]].
  - rewrite IH, group_add_nil, Forall_cons. tauto.
Qed.

Lemma group_loop_nil (render : Keyboard -> result Markup) (keep_rows : bool)
    (buttons : list Keyboard) :
  group_loop render keep_rows buttons [] = Ret [] <->
  Forall (fun b => render b = Ret []) buttons.
Proof.
  split.
  - intros (rs & Hrs & Hnil)%group_loop_Ret.
    symmetry in Hnil. apply foldl_group_add_nil in Hnil as [_ Hnil].
    induction Hrs as [|b r bs rs Hb _ IHrs]; [done|].
    apply Forall_cons in Hnil as [-> Hnil]. constructor; [done|by apply IHrs].
  - induction 1 as [|b bs Hb _ IH]; simpl; [done|]. by rewrite Hb.
Qed.

(** X28: a visible [Group] raises in two cases only. Either a child
    raises: the children are rendered in order and the exception of the
    first one that raises is passed on, whatever it is. Or no child
    raises and the group raises [IndexError] itself, which happens
    exactly when it does not keep rows, has a non-zero width and every
    child rendered no rows. A hidden group never raises. *)
Theorem render_kbd_raises (buttons : list Keyboard) (keep_rows : bool) (width : Z)
    (when : When) (data : gmap string pyval) (e : exn) :
  render_kbd (Group buttons keep_rows width when) data = Raise e <->
  when data = true /\
  ((exists pre b post,
      buttons = pre ++ b :: post /\
      Forall (fun b' => exists r, render_kbd b' data = Ret r) pre /\
      render_kbd b data = Raise e) \/
   (e = IndexError /\ keep_rows = false /\ width <> 0%Z /\
    Forall (fun b => render_kbd b data = Ret []) buttons)).
Proof.
  rewrite render_kbd_unfold. simpl. destruct (when data); simpl.
  - destruct (group_loop _ keep_rows buttons []) as [kbd|e'] eqn:E.
    + rewrite group_finish_Raise. split.
      * intros (-> & -> & Hw & ->). split; [done|]. right.
        by apply group_loop_nil in E.
      * intros [_ [H|(-> & -> & Hw & Hall)]].
        -- apply group_loop_Raise_first with (keep_rows := keep_rows) (kbd := [])
             in H. congruence.
        -- apply group_loop_nil with (keep_rows := false) in Hall.
           rewrite Hall in E. by injection E as <-.
    + split.
      * intros [= ->]. split; [done|]. left. by eapply group_loop_Raise_first.
      * intros [_ [H|(-> & -> & Hw & Hall)]].
        -- apply group_loop_Raise_first with (keep_rows := keep_rows) (kbd := [])
             in H. congruence.
        -- apply group_loop_nil with (keep_rows := false) in Hall. congruence.
  - split; [done|]. by intros [? _].
Qed.

Lemma render_kbd_raises_witness :
  render_kbd (Group [sample_button "1" always; BaseKeyboard always;
                     sample_button "2" always] true 0 always) ∅
  = Raise NotImplementedError /\
  render_kbd (Group [sample_button "1" never; BaseKeyboard never] false 2 always) ∅
  = Raise IndexError.
Proof.
  split.
  - apply render_kbd_raises. split; [reflexivity|]. left.
    exists [sample_button "1" always], (BaseKeyboard always),
      [sample_button "2" always].
    split_and!; [reflexivity| |reflexivity].
    constructor; [by eexists|constructor].
  - apply render_kbd_raises. split; [reflexivity|]. right.
    split_and!; [reflexivity|reflexivity|lia|].
    repeat constructor.
Defined.

(** X29: a tree of buttons, links and groups in which every group keeps
    rows renders one row per visible leaf, in the order of the leaves. *)
Theorem render_kbd_all_keep_rows (k : Keyboard) (data : gmap string pyval) :
  all_keep_rows k = true ->
  render_kbd k data = Ret (map (fun b => [b]) (leaves k data)).
Proof.
  induction k as [w|t c o w|t u w|bs keep width w IH] using Keyboard_nested_ind.
  - done.
  - intros _. rewrite render_kbd_unfold. simpl. by destruct (negb _).
  - intros _. rewrite render_kbd_unfold. simpl. by destruct (negb _).
  - intros Hk.
    assert (keep = true /\ forallb all_keep_rows bs = true) as [-> Hall]
      by by apply andb_true_iff.
    assert (leaves (Group bs true width w) data
            = if w data then concat (map (fun b => leaves b data) bs) else [])
      as -> by (simpl; by destruct (w data)).
    destruct (w data) eqn:Hw; [|by rewrite render_kbd_hidden].
    rewrite (render_kbd_keep_rows _ _ _ _
               (map (fun b => map (fun x => [x]) (leaves b data)) bs)); [|done|].
    + f_equal. clear. induction bs as [|b bs IHbs]; simpl; [done|].
      by rewrite map_app, IHbs.
    + clear Hw Hk. induction bs as [|b bs IHbs]; simpl; [constructor|].
      apply Forall_cons in IH as [IHb IHrest].
      apply andb_true_iff in Hall as [Hb Hrest].
      constructor; [by apply IHb|by apply IHbs].
Qed.

Lemma render_kbd_all_keep_rows_witness :
  render_kbd sample_tree ∅ = Ret [[rendered "1"]; [rendered "3"]; [rendered "5"]].
Proof. apply (render_kbd_all_keep_rows sample_tree ∅). reflexivity. Defined.

Lemma concat_group_add (keep_rows : bool) (kbd b_kbd : Markup) :
  concat (group_add keep_rows kbd b_kbd) ≡ₚ concat kbd ++ concat b_kbd.
Proof.
  destruct kbd as [|row rest]; simpl; [done|]. destruct keep_rows.
  - change (row :: rest ++ b_kbd) with ((row :: rest) ++ b_kbd).
    by rewrite concat_app.
  - simpl. rewrite <- !app_assoc. apply Permutation_app_head, Permutation_app_comm.
Qed.

Lemma concat_foldl_group_add (keep_rows : bool) (rs : list Markup) (kbd : Markup) :
  concat (foldl (group_add keep_rows) kbd rs) ≡ₚ concat kbd ++ concat (map (fun r => concat r) rs).
Proof.
  revert kbd. induction rs as [|r rs IH]; intros kbd; simpl.
  - by rewrite app_nil_r.
  - rewrite IH, concat_group_add. by rewrite <- app_assoc.
Qed.

Lemma concat_getitem_first (kbd : Markup) (row : list InlineKeyboardButton) :
  getitem kbd 0 = Ret row -> row ⊆+ concat kbd.
Proof.
  destruct kbd as [|row' rest]; [done|]. unfold getitem. simpl. intros [= ->].
  by apply submseteq_inserts_r.
Qed.

(** X30: rendering never invents or repeats a button: the buttons of a
    rendered keyboard are, counted with multiplicity, among the buttons
    of the tree's visible leaves. *)
Theorem render_kbd_buttons (k : Keyboard) (data : gmap string pyval) (kbd : Markup) :
  render_kbd k data = Ret kbd -> concat kbd ⊆+ leaves k data.
Proof.
  revert kbd.
  induction k as [w|t c o w|t u w|bs keep width w IH] using Keyboard_nested_ind;
    intros kbd.
  - rewrite render_kbd_unfold. simpl. destruct (negb _); [|done]. by intros [= <-].
  - rewrite render_kbd_unfold. simpl. destruct (negb _); by intros [= <-].
  - rewrite render_kbd_unfold. simpl. destruct (negb _); by intros [= <-].
  - intros [[Hw [= ->]]|[Hw [(e & b & _ & _ & [=])|(rs & Hrs & Hfin)]]]%render_kbd_Group_inv;
      simpl; rewrite Hw; simpl; [done|].
    assert (concat (map (fun r => concat r) rs) ⊆+ concat (map (fun b => leaves b data) bs)) as Hsub.
    { clear Hfin. induction Hrs as [|b r bs rs Hb _ IHrs]; simpl; [done|].
      apply Forall_cons in IH as [IHb IHbs].
      apply submseteq_app; [by apply IHb|by apply IHrs]. }
    assert (concat kbd ⊆+ concat (foldl (group_add keep) [] rs)) as Hkbd.
    { unfold group_finish in Hfin. destruct (negb keep && negb (width =? 0)%Z).
      - destruct (getitem _ 0) as [row|] eqn:Hrow; [|done]. injection Hfin as ->.
        unfold _wrap_kbd. rewrite concat_wrap_loop. simpl.
        by apply concat_getitem_first.
      - by injection Hfin as ->. }
    rewrite Hkbd, concat_foldl_group_add. simpl. done.
Qed.

Lemma render_kbd_buttons_witness :
  concat [[rendered "1"; rendered "3"]] ⊆+ [rendered "1"; rendered "2"; rendered "3"].
Proof.
  apply (render_kbd_buttons
           (Group [Group [sample_button "1" always; sample_button "2" always]
                     true 0 always;
                   sample_button "3" always] false 2 always) ∅).
  reflexivity.
Defined.

(** ** The back callback as an edit in place *)





